(** * Mandelbrot explorer (main.js): evaluator, colour mapper and zoom handler

    A shallow embedding of [main.js].  The program is written once, over an
    interface [Number] of the arithmetic it uses, and read at two instances:

    - [Float64]: IEEE-754 binary64 with round-to-nearest-even, which is what
      a JavaScript Number is.  The operations are the executable
      specification of the Standard Library ([SpecFloat], precision 53,
      [emax] 1024), so every rounding, overflow, signed zero and NaN of the
      script is there;
    - [Exact]: the rationals, where no operation rounds.  It serves to
      separate what the formulas of the script say from what rounding does
      to them.

    Loop counters ([px], [py], [iteration]) and [maxIterations] hold
    integers; they are kept as [nat] and [Z] and injected with [lit] where
    the script uses them in arithmetic (a Number holds every integer below
    2^53 exactly).  The canvas is the part of the page the script writes:
    its size and the RGBA bytes it shows.  The page, with the drag handlers
    (lines 116-145) and the events it receives, comes after the render and
    the wheel handler. *)

From Stdlib Require Import ZArith QArith Qround Qabs Qpower Lia Lqa Bool.
From Stdlib Require Import Floats.SpecFloat.
From Equations Require Import Equations.
From stdpp Require Import base list.

Local Open Scope Z_scope.

(** ** The arithmetic of the script *)

Class Number (num : Type) := {
  n_add : num -> num -> num;
  n_sub : num -> num -> num;
  n_mul : num -> num -> num;
  n_div : num -> num -> num;
  n_lt : num -> num -> bool;          (* [a < b] *)
  n_le : num -> num -> bool;          (* [a <= b] *)
  n_seq : num -> num -> bool;         (* [a === b] *)
  lit : Z -> num;                     (* an integer literal or counter *)
  Math_round : num -> num;            (* [Math.round] *)
  ToUint8Clamp : num -> Z;            (* a store into a Uint8ClampedArray *)
}.

Declare Scope num_scope.
Delimit Scope num_scope with num.
Infix "+" := n_add : num_scope.
Infix "-" := n_sub : num_scope.
Infix "*" := n_mul : num_scope.
Infix "/" := n_div : num_scope.
Infix "<?" := n_lt : num_scope.
Infix "<=?" := n_le : num_scope.
Infix "===" := n_seq (at level 70, no associativity) : num_scope.

(** ** Binary64 *)

Module Float64.

Definition prec : Z := 53.
Definition emax : Z := 1024.

Definition of_Z (n : Z) : spec_float := binary_normalize prec emax n 0 false.

(** [Math.round]: the nearest integer, ties towards +infinity; NaN,
    infinities and zeros are returned as they are, and a result of zero
    keeps the sign of the argument. *)
Definition round (x : spec_float) : spec_float :=
  match x with
  | S754_finite s m e =>
      if 0 <=? e then x
      else
        let n := (2 * cond_Zopp s (Zpos m) + 2 ^ (- e)) / 2 ^ (1 - e) in
        match n with
        | Z0 => S754_zero s
        | _ => of_Z n
        end
  | _ => x
  end.

(** The conversion of a store into a [Uint8ClampedArray]: NaN gives 0,
    the value is clamped to [0, 255] and rounded to the nearest integer,
    ties to even. *)
Definition to_uint8_clamp (x : spec_float) : Z :=
  match x with
  | S754_nan | S754_zero _ => 0
  | S754_infinity s => if s then 0 else 255
  | S754_finite true _ _ => 0
  | S754_finite false m e =>
      if 0 <=? e then Z.min 255 (Zpos m * 2 ^ e)
      else
        let d := 2 ^ (- e) in
        let f := Zpos m / d in
        let r := Zpos m mod d in
        Z.min 255
          match 2 * r ?= d with
          | Lt => f
          | Gt => f + 1
          | Eq => if Z.even f then f else f + 1
          end
  end.

#[global] Instance number : Number spec_float := {|
  n_add := SFadd prec emax;
  n_sub := SFsub prec emax;
  n_mul := SFmul prec emax;
  n_div := SFdiv prec emax;
  n_lt := SFltb;
  n_le := SFleb;
  n_seq := SFeqb;
  lit := of_Z;
  Math_round := round;
  ToUint8Clamp := to_uint8_clamp;
|}.

#[global] Instance spec_float_eq_dec : EqDecision spec_float.
Proof. solve_decision. Defined.

(** The value of a finite double, as a rational. *)
Definition to_Q (x : spec_float) : option Q :=
  match x with
  | S754_zero _ => Some 0%Q
  | S754_finite s m e => Some (inject_Z (cond_Zopp s (Zpos m)) * 2 ^ e)%Q
  | _ => None
  end.

(** [a] is within the relative tolerance [tol] of [b]; both are finite. *)
Definition relClose (tol : Q) (a b : spec_float) : Prop :=
  match to_Q a, to_Q b with
  | Some qa, Some qb => (Qabs (qa - qb) <= tol * Qabs qb)%Q
  | _, _ => False
  end.

(** The positive normal doubles from [2^-1021] up to, not including,
    [2^1021]: a full 53-bit mantissa and an exponent that leaves room on
    both sides. *)
Definition midRange (x : spec_float) : bool :=
  match x with
  | S754_finite false m e =>
      (2 ^ 52 <=? Zpos m) && (Zpos m <? 2 ^ 53) && (-1073 <=? e) && (e <=? 968)
  | _ => false
  end.

(** A double's exponent is not below the format's least one. *)
Definition expOk (x : spec_float) : Prop :=
  match x with
  | S754_finite _ _ e => -1074 <= e
  | _ => True
  end.

(** The mantissa of the double nearest to 1.1, which is
    [4953959590107546 × 2^-52]. *)
Definition mantissa_1_1 : positive := 4953959590107546.

End Float64.

(** ** Exact rational arithmetic *)

Module Exact.

Definition round (x : Q) : Q := inject_Z (Qfloor (x + (1 # 2))).

Definition to_uint8_clamp (x : Q) : Z :=
  let f := Qfloor x in
  let r := (x - inject_Z f)%Q in
  Z.max 0 (Z.min 255
    match (r ?= 1 # 2)%Q with
    | Lt => f
    | Gt => f + 1
    | Eq => if Z.even f then f else f + 1
    end).

#[global] Instance number : Number Q := {|
  n_add := Qplus;
  n_sub := Qminus;
  n_mul := Qmult;
  n_div := Qdiv;
  n_lt := fun a b => negb (Qle_bool b a);
  n_le := Qle_bool;
  n_seq := Qeq_bool;
  lit := inject_Z;
  Math_round := round;
  ToUint8Clamp := to_uint8_clamp;
|}.

End Exact.

(** ** The script *)

Definition inspect {A} (a : A) : {b | a = b} := exist _ a eq_refl.

Section Script.

Context {num : Type} `{Number num}.
Local Open Scope num_scope.

(** The decimal literals [0.5] and [1.1]: the Number nearest to the
    decimal, which the correctly rounded quotient of two small integers
    is. *)
Definition lit_0_5 : num := lit 5 / lit 10.
Definition lit_1_1 : num := lit 11 / lit 10.

(** *** hslToRgb (main.js, lines 58-82) *)

Definition hue2rgb (p q t : num) : num :=
  let t := if t <? lit 0 then t + lit 1 else t in
  let t := if lit 1 <? t then t - lit 1 else t in
  if t <? lit 1 / lit 6 then p + (q - p) * lit 6 * t
  else if t <? lit 1 / lit 2 then q
  else if t <? lit 2 / lit 3 then p + (q - p) * (lit 2 / lit 3 - t) * lit 6
  else p.

Definition hslToRgb (h s l : num) : num * num * num :=
  let '(r, g, b) :=
    if s === lit 0 then (l, l, l)
    else
      let q := if l <? lit_0_5 then l * (lit 1 + s) else l + s - l * s in
      let p := lit 2 * l - q in
      (hue2rgb p q (h + lit 1 / lit 3),
       hue2rgb p q h,
       hue2rgb p q (h - lit 1 / lit 3)) in
  (Math_round (r * lit 255), Math_round (g * lit 255), Math_round (b * lit 255)).

(** *** State

    The script's global variables that the evaluator and the wheel handler
    use, and what the canvas shows ([putImageData] replaces it).  The
    canvas size is read once, when the script loads. *)

Variables width height : nat.

Record globals := Globals {
  maxIterations : Z;
  zoom : num;
  offsetX : num;
  offsetY : num;
  canvasPixels : list Z;
}.

Inductive exn := IndexSizeError.

Inductive completion (A : Type) :=
| Normal (a : A)
| Throw (e : exn).
Global Arguments Normal {A} a.
Global Arguments Throw {A} e.

(** [ctx.createImageData(width, height)]: a zero-filled RGBA buffer of
    [width × height] pixels.  The canvas API (HTML Standard, 2D context)
    throws an [IndexSizeError] exception when either argument is zero. *)
Definition createImageData (w h : nat) : completion (list Z) :=
  if ((w =? 0) || (h =? 0))%nat then Throw IndexSizeError
  else Normal (replicate (w * h * 4) 0).

(** *** Pixel to plane (lines 27-28, and again lines 98-99) *)

Definition planeX (g : globals) (px : num) : num :=
  (px - lit (Z.of_nat width) / lit 2) * (lit 4 / lit (Z.of_nat width)) / zoom g + offsetX g.

Definition planeY (g : globals) (py : num) : num :=
  (py - lit (Z.of_nat height) / lit 2) * (lit 4 / lit (Z.of_nat height)) / zoom g + offsetY g.

(** *** The escape loop (lines 30-39)

    [while (x * x + y * y <= 4 && iteration < maxIterations) { ... }],
    returning [iteration].  Each turn brings [iteration] one closer to
    [maxIterations], which is why the loop ends. *)

Definition loopGuard (maxIter : Z) (x y : num) (iteration : Z) : bool :=
  (x * x + y * y <=? lit 4) && (iteration <? maxIter)%Z.

Equations? escapeLoop (x0 y0 : num) (maxIter : Z) (x y : num) (iteration : Z) : Z
  by wf (Z.to_nat (maxIter - iteration)) lt :=
  escapeLoop x0 y0 maxIter x y iteration with inspect (loopGuard maxIter x y iteration) := {
    | exist _ true Hguard =>
        escapeLoop x0 y0 maxIter (x * x - y * y + x0) (lit 2 * x * y + y0) (iteration + 1)%Z;
    | exist _ false _ => iteration }.
Proof.
  unfold loopGuard in Hguard.
  apply andb_true_iff in Hguard as [_ Hlt%Z.ltb_lt]. lia.
Qed.

Definition escapeTime (x0 y0 : num) (maxIter : Z) : Z :=
  escapeLoop x0 y0 maxIter (lit 0) (lit 0) 0%Z.

(** The reference recurrence, as the specification words it: from a
    state ([x], [y], [iteration]), while [x² + y² ≤ 4] and
    [iteration < iterationBudget], take one step of [z ← z² + c] and count
    it; the count on exit is the result. *)
Inductive referenceRun (x0 y0 : num) (iterationBudget : Z)
  : num -> num -> Z -> Z -> Prop :=
| ref_exit x y iteration :
    (x * x + y * y <=? lit 4) = false \/ (iterationBudget <= iteration)%Z ->
    referenceRun x0 y0 iterationBudget x y iteration iteration
| ref_step x y iteration n :
    (x * x + y * y <=? lit 4) = true ->
    (iteration < iterationBudget)%Z ->
    referenceRun x0 y0 iterationBudget
      (x * x - y * y + x0) (lit 2 * x * y + y0) (iteration + 1)%Z n ->
    referenceRun x0 y0 iterationBudget x y iteration n.

(** *** Colour of an iteration count (lines 42-43) *)

Definition colorValue (iteration maxIter : Z) : num :=
  if (iteration =? maxIter)%Z then lit 0
  else (lit iteration / lit maxIter) * lit 360.

Definition pixelColor (iteration maxIter : Z) : num * num * num :=
  hslToRgb (colorValue iteration maxIter / lit 360) (lit 1) lit_0_5.

(** *** generateMandelbrot (lines 18-55) *)

Definition pixelIndex (py px : nat) : nat := ((py * width + px) * 4)%nat.

(** The four bytes stored for a colour: red, green, blue and the alpha
    255, each as the array holds it. *)
Definition colorBytes (rgb : num * num * num) : list Z :=
  let '(r, gr, b) := rgb in
  [ToUint8Clamp r; ToUint8Clamp gr; ToUint8Clamp b; 255].

(** The four bytes that [renderPixel] stores for pixel ([px], [py]). *)
Definition pixelBytes (g : globals) (py px : nat) : list Z :=
  let x0 := planeX g (lit (Z.of_nat px)) in
  let y0 := planeY g (lit (Z.of_nat py)) in
  let iteration := escapeTime x0 y0 (maxIterations g) in
  colorBytes (pixelColor iteration (maxIterations g)).

Definition renderPixel (g : globals) (py px : nat) (data : list Z) : list Z :=
  let x0 := planeX g (lit (Z.of_nat px)) in
  let y0 := planeY g (lit (Z.of_nat py)) in
  let iteration := escapeTime x0 y0 (maxIterations g) in
  let '(r, gr, b) := pixelColor iteration (maxIterations g) in
  let i := pixelIndex py px in
  <[(i + 3)%nat := 255]>
    (<[(i + 2)%nat := ToUint8Clamp b]>
       (<[(i + 1)%nat := ToUint8Clamp gr]>
          (<[i := ToUint8Clamp r]> data))).

Definition renderRow (g : globals) (py : nat) (data : list Z) : list Z :=
  foldl (fun d px => renderPixel g py px d) data (seq 0 width).

Definition renderRows (g : globals) (data : list Z) : list Z :=
  foldl (fun d py => renderRow g py d) data (seq 0 height).

Definition putImageData (data : list Z) (g : globals) : globals :=
  {| maxIterations := maxIterations g; zoom := zoom g;
     offsetX := offsetX g; offsetY := offsetY g;
     canvasPixels := data |}.

Definition generateMandelbrot (g : globals) : completion globals :=
  match createImageData width height with
  | Throw e => Throw e
  | Normal data => Normal (putImageData (renderRows g data) g)
  end.

(** *** The wheel handler (lines 89-114) *)

Definition zoomIn (z : num) : num := z * lit_1_1.
Definition zoomOut (z : num) : num := z / lit_1_1.

Definition zoomAt (mouseX mouseY deltaY : num) (g : globals) : globals :=
  let x0 := planeX g mouseX in
  let y0 := planeY g mouseY in
  let zoom' := if deltaY <? lit 0 then zoomIn (zoom g) else zoomOut (zoom g) in
  {| maxIterations := maxIterations g;
     zoom := zoom';
     offsetX := x0 - (mouseX - lit (Z.of_nat width) / lit 2) * (lit 4 / lit (Z.of_nat width)) / zoom';
     offsetY := y0 - (mouseY - lit (Z.of_nat height) / lit 2) * (lit 4 / lit (Z.of_nat height)) / zoom';
     canvasPixels := canvasPixels g |}.

Record wheelEvent := WheelEvent { clientX : num; clientY : num; deltaY : num }.
Record domRect := DomRect { left : num; top : num }.

Definition onWheel (rect : domRect) (event : wheelEvent) (g : globals) : completion globals :=
  let mouseX := clientX event - left rect in
  let mouseY := clientY event - top rect in
  generateMandelbrot (zoomAt mouseX mouseY (deltaY event) g).

(** The script's initial values (lines 12-15); the canvas is blank until
    the first render. *)
Definition initial : globals :=
  {| maxIterations := 100; zoom := lit 1;
     offsetX := lit (-5) / lit 10; offsetY := lit 0;
     canvasPixels := replicate (width * height * 4) 0 |}.

(** *** The specification's formulas

    What the specification writes for the pixel-to-plane mapping and for
    the hue, to be compared with the script. *)

(** [(p − extent/2) × (4/extent) / zoom + center]. *)
Definition specCoordinate (extent : nat) (zoomFactor center p : num) : num :=
  (p - lit (Z.of_nat extent) / lit 2) * (lit 4 / lit (Z.of_nat extent)) / zoomFactor + center.

(** Hue 0 for a point that used the whole budget; otherwise
    [(iterationCount / iterationBudget) × 360] degrees, brought back to
    the unit interval that [hslToRgb] takes. *)
Definition specHue (iterationCount iterationBudget : Z) : num :=
  if (iterationCount =? iterationBudget)%Z then lit 0
  else lit iterationCount / lit iterationBudget * lit 360 / lit 360.

(** The same hue taken as the plain quotient
    [iterationCount / iterationBudget]. *)
Definition quotientHue (iterationCount iterationBudget : Z) : num :=
  if (iterationCount =? iterationBudget)%Z then lit 0
  else lit iterationCount / lit iterationBudget.

End Script.

Definition f64 := spec_float.

Arguments Globals {num}.

(** ** Dragging (lines 84-86 and 116-145) *)

Section Pan.

Context {num : Type} `{Number num}.
Variables width height : nat.
Local Open Scope num_scope.

(** The two updates of the [mousemove] handler (lines 129-130), for a
    pointer that moved by ([dx], [dy]) pixels. *)
Definition panBy (dx dy : num) (g : globals) : globals :=
  {| maxIterations := maxIterations g;
     zoom := zoom g;
     offsetX := offsetX g - dx * (lit 4 / lit (Z.of_nat width)) / zoom g;
     offsetY := offsetY g - dy * (lit 4 / lit (Z.of_nat height)) / zoom g;
     canvasPixels := canvasPixels g |}.

(** A call [generateMandelbrot();] made as a statement: when it throws,
    the variables keep what was assigned to them before the call, and the
    exception leaves the handler. *)
Definition redraw (g : globals) : globals * option exn :=
  match generateMandelbrot width height g with
  | Normal g' => (g', None)
  | Throw e => (g, Some e)
  end.

End Pan.

(** ** The page: the script's variables and its handlers, on doubles

    [startX] and [startY] are declared without a value (line 86): they are
    [undefined], here [None], until a [mousedown] sets them. *)

(** A positive double, or +Infinity. *)
Definition positiveDouble (x : f64) : Prop :=
  match x with
  | S754_infinity false => True
  | S754_finite false m e => -1074 <= e /\ Zpos m < 2 ^ 53
  | _ => False
  end.

Record page := Page {
  view : globals (num:=f64);
  isDragging : bool;
  startX : option f64;
  startY : option f64;
}.

(** A variable read as a Number: [undefined] converts to NaN. *)
Definition toNumber (v : option f64) : f64 :=
  match v with
  | Some n => n
  | None => S754_nan
  end.

(** What the browser delivers to the canvas: a wheel event comes with the
    canvas's bounding rectangle at that moment, a [mousedown] and a
    [mousemove] with the pointer's position. *)
Inductive event :=
| Wheel (rect : domRect (num:=f64)) (e : wheelEvent (num:=f64))
| MouseDown (x y : f64)
| MouseMove (x y : f64)
| MouseUp
| MouseLeave.

Section Handlers.

Variables width height : nat.
Local Open Scope num_scope.

(** Lines 89-114: the new zoom and offsets are assigned, then the fractal
    is drawn. *)
Definition wheelHandler (rect : domRect) (e : wheelEvent) (p : page) : page * option exn :=
  let mouseX := clientX e - left rect in
  let mouseY := clientY e - top rect in
  let '(g, r) := redraw width height (zoomAt width height mouseX mouseY (deltaY e) (view p)) in
  (Page g (isDragging p) (startX p) (startY p), r).

(** Lines 117-121. *)
Definition mousedownHandler (x y : f64) (p : page) : page :=
  Page (view p) true (Some x) (Some y).

(** Lines 123-137. *)
Definition mousemoveHandler (x y : f64) (p : page) : page * option exn :=
  if isDragging p then
    let dx := x - toNumber (startX p) in
    let dy := y - toNumber (startY p) in
    let '(g, r) := redraw width height (panBy width height dx dy (view p)) in
    (Page g (isDragging p) (Some x) (Some y), r)
  else (p, None).

(** Lines 139-141 and 143-145. *)
Definition mouseupHandler (p : page) : page :=
  Page (view p) false (startX p) (startY p).

Definition mouseleaveHandler (p : page) : page :=
  Page (view p) false (startX p) (startY p).

Definition handle (ev : event) (p : page) : page * option exn :=
  match ev with
  | Wheel rect e => wheelHandler rect e p
  | MouseDown x y => (mousedownHandler x y p, None)
  | MouseMove x y => mousemoveHandler x y p
  | MouseUp => (mouseupHandler p, None)
  | MouseLeave => (mouseleaveHandler p, None)
  end.

Definition reported (r : option exn) : list exn :=
  match r with
  | Some e => [e]
  | None => []
  end.

(** The events of a session, handled one after the other; an exception
    ends the handler that raised it, not the session. *)
Fixpoint run (evs : list event) (p : page) : page * list exn :=
  match evs with
  | [] => (p, [])
  | ev :: evs' =>
      let '(p', r) := handle ev p in
      let '(p'', rs) := run evs' p' in
      (p'', reported r ++ rs)
  end.

(** Running the script: the variables get their first values, the
    handlers are registered, and the fractal is drawn once (line 148). *)
Definition load : page * option exn :=
  let '(g, r) := redraw width height (initial width height) in
  (Page g false None None, r).

(** The page after the script has run and the events [evs] have been
    handled, with the exceptions raised on the way. *)
Definition session (evs : list event) : page * list exn :=
  let '(p, r) := load in
  let '(p', rs) := run evs p in
  (p', reported r ++ rs).

(** The canvas shows the viewport that the variables hold. *)
Definition shown (g : globals (num:=f64)) : Prop :=
  canvasPixels g = renderRows width height g (replicate (width * height * 4) 0).

(** What every handler keeps. *)
Record steady (p : page) : Prop := Steady {
  steady_budget : maxIterations (view p) = 100;
  steady_zoom : positiveDouble (zoom (view p));
  steady_start : isDragging p = true -> is_Some (startX p) /\ is_Some (startY p);
  steady_shown : (0 < width)%nat -> (0 < height)%nat -> shown (view p);
}.

End Handlers.

(** ** Mirror images *)

(** [b] is [a] with the other sign; two zeros count as mirrored whatever
    their signs. *)
Definition mirrored (a b : f64) : Prop :=
  b = SFopp a \/
  match a, b with
  | S754_zero _, S754_zero _ => True
  | _, _ => False
  end.

(** * Facts *)

(** ** Loops that write disjoint parts of a buffer *)

Section Folds.

Context {K : Type} (u : list Z -> K -> list Z).

Lemma foldl_frame (ks : list K) (d : list Z) (j : nat) :
  (forall k d', k ∈ ks -> u d' k !! j = d' !! j) ->
  foldl u d ks !! j = d !! j.
Proof.
  revert d. induction ks as [|k ks IH]; intros d Hk; simpl; [done|].
  rewrite IH.
  - apply Hk. left.
  - intros k' d' Hin. apply Hk. by right.
Qed.

Lemma foldl_hit (P : list Z -> Prop) (k0 : K) (v : Z) (j : nat) (ks : list K) (d : list Z) :
  (forall k d', P d' -> P (u d' k)) ->
  (forall d', P d' -> u d' k0 !! j = Some v) ->
  (forall k d', P d' -> k <> k0 -> u d' k !! j = d' !! j) ->
  (forall k, Decision (k = k0)) ->
  P d ->
  d !! j = Some v \/ k0 ∈ ks ->
  foldl u d ks !! j = Some v.
Proof.
  intros Hpres Hset Hother Hdec. revert d.
  induction ks as [|k ks IH]; intros d HP Hor; simpl.
  - destruct Hor as [Hd|Hin]; [done|]. by apply elem_of_nil in Hin.
  - apply IH; [by apply Hpres|].
    destruct (Hdec k) as [->|Hne].
    + left. by apply Hset.
    + destruct Hor as [Hd|Hin].
      * left. by rewrite Hother.
      * apply elem_of_cons in Hin as [->|Hin]; [done|by right].
Qed.

Lemma foldl_preserves (P : list Z -> Prop) (ks : list K) (d : list Z) :
  (forall k d', P d' -> P (u d' k)) -> P d -> P (foldl u d ks).
Proof.
  intros Hpres. revert d. induction ks as [|k ks IH]; intros d HP; simpl; auto.
Qed.

End Folds.

(** ** The escape loop *)

Section EscapeFacts.

Context {num : Type} `{Number num}.
Local Open Scope num_scope.

Lemma escapeLoop_eq (x0 y0 : num) maxIter x y iteration :
  escapeLoop x0 y0 maxIter x y iteration =
  if loopGuard maxIter x y iteration
  then escapeLoop x0 y0 maxIter (x * x - y * y + x0) (lit 2 * x * y + y0) (iteration + 1)%Z
  else iteration.
Proof.
  funelim (escapeLoop x0 y0 maxIter x y iteration).
  - rewrite Hguard. done.
  - rewrite e. done.
Qed.

Lemma escapeLoop_done (x0 y0 : num) maxIter x y iteration :
  (maxIter <= iteration)%Z -> escapeLoop x0 y0 maxIter x y iteration = iteration.
Proof.
  intros Hle. rewrite escapeLoop_eq. unfold loopGuard.
  replace (iteration <? maxIter)%Z with false by (symmetry; apply Z.ltb_ge; lia).
  by rewrite andb_false_r.
Qed.

Lemma escapeLoop_bounds (x0 y0 : num) maxIter x y iteration :
  (iteration <= maxIter)%Z ->
  (iteration <= escapeLoop x0 y0 maxIter x y iteration <= maxIter)%Z.
Proof.
  funelim (escapeLoop x0 y0 maxIter x y iteration); intros Hle.
  - pose proof Hguard as Hg. unfold loopGuard in Hg.
    apply andb_true_iff in Hg as [_ Hlt%Z.ltb_lt].
    match goal with
    | IH : (_ <= _)%Z -> (_ <= escapeLoop _ _ _ _ _ _ <= _)%Z |- _ =>
        specialize (IH ltac:(lia)); lia
    end.
  - lia.
Qed.

Lemma escapeLoop_reference (x0 y0 : num) maxIter x y iteration :
  referenceRun x0 y0 maxIter x y iteration (escapeLoop x0 y0 maxIter x y iteration).
Proof.
  funelim (escapeLoop x0 y0 maxIter x y iteration).
  - pose proof Hguard as Hg. unfold loopGuard in Hg.
    apply andb_true_iff in Hg as [Hin Hlt%Z.ltb_lt].
    by apply ref_step.
  - pose proof e as Hg. unfold loopGuard in Hg. apply ref_exit.
    apply andb_false_iff in Hg as [Hout|Hge%Z.ltb_ge]; [by left|by right].
Qed.

Lemma referenceRun_unique (x0 y0 : num) budget x y iteration n :
  referenceRun x0 y0 budget x y iteration n ->
  n = escapeLoop x0 y0 budget x y iteration.
Proof.
  induction 1 as [x y i Hexit|x y i n Hin Hlt Hrun IH];
    rewrite escapeLoop_eq; unfold loopGuard.
  - destruct Hexit as [->|Hge]; [done|].
    replace (i <? budget)%Z with false by (symmetry; apply Z.ltb_ge; lia).
    by rewrite andb_false_r.
  - rewrite Hin. replace (i <? budget)%Z with true by (symmetry; apply Z.ltb_lt; lia).
    done.
Qed.

End EscapeFacts.

Section RenderFacts.

Context {num : Type} `{Number num}.
Variables width height : nat.

Local Abbreviation index := (pixelIndex width).
Local Abbreviation pixel := (renderPixel width height).
Local Abbreviation row := (renderRow width height).
Local Abbreviation rows := (renderRows width height).
Local Abbreviation bytes := (pixelBytes width height).

Lemma renderPixel_length g py px data :
  length (pixel g py px data) = length data.
Proof.
  unfold renderPixel. destruct (pixelColor _ _) as [[r gr] b].
  by rewrite !length_insert.
Qed.

Lemma renderPixel_other g py px data (j : nat) :
  (j < index py px \/ index py px + 4 <= j)%nat ->
  pixel g py px data !! j = data !! j.
Proof.
  intros Hj. unfold renderPixel. destruct (pixelColor _ _) as [[r gr] b].
  rewrite !list_lookup_insert_ne by lia. done.
Qed.

Lemma renderPixel_at g py px data (c : nat) :
  (index py px + 3 < length data)%nat -> (c < 4)%nat ->
  pixel g py px data !! (index py px + c)%nat = bytes g py px !! c.
Proof.
  intros Hlen Hc. unfold renderPixel, pixelBytes, colorBytes.
  destruct (pixelColor _ _) as [[r gr] b].
  destruct c as [|[|[|[|c]]]]; [| | | |lia]; simpl.
  - rewrite !list_lookup_insert_ne by lia.
    rewrite Nat.add_0_r, list_lookup_insert_eq by lia. done.
  - rewrite !list_lookup_insert_ne by lia.
    rewrite list_lookup_insert_eq by (rewrite !length_insert; lia). done.
  - rewrite !list_lookup_insert_ne by lia.
    rewrite list_lookup_insert_eq by (rewrite !length_insert; lia). done.
  - rewrite list_lookup_insert_eq by (rewrite !length_insert; lia). done.
Qed.

Lemma pixelIndex_bound py px :
  (px < width)%nat -> (py < height)%nat ->
  (index py px + 3 < width * height * 4)%nat.
Proof.
  intros Hx Hy. unfold pixelIndex.
  assert ((py + 1) * width <= height * width)%nat
    by (apply Nat.mul_le_mono_r; lia).
  lia.
Qed.

Lemma pixelIndex_rows py py' px px' :
  (px < width)%nat -> (px' < width)%nat -> py <> py' ->
  (index py px + 4 <= index py' px' \/
   index py' px' + 4 <= index py px)%nat.
Proof.
  intros Hx Hx' Hne. unfold pixelIndex.
  destruct (Nat.lt_total py py') as [Hlt|[->|Hlt]]; [|done|].
  - assert ((py + 1) * width <= py' * width)%nat
      by (apply Nat.mul_le_mono_r; lia). lia.
  - assert ((py' + 1) * width <= py * width)%nat
      by (apply Nat.mul_le_mono_r; lia). lia.
Qed.

Lemma pixelBytes_length g py px : length (bytes g py px) = 4%nat.
Proof. unfold pixelBytes, colorBytes. by destruct (pixelColor _ _) as [[r gr] b]. Qed.

Lemma renderRow_length g py data : length (row g py data) = length data.
Proof.
  unfold renderRow.
  apply (foldl_preserves _ (fun d => length d = length data)); [|done].
  intros k d' Hd. by rewrite renderPixel_length.
Qed.

Lemma renderRows_length g data : length (rows g data) = length data.
Proof.
  unfold renderRows.
  apply (foldl_preserves _ (fun d => length d = length data)); [|done].
  intros k d' Hd. by rewrite renderRow_length.
Qed.

(** A row writes its own pixels only. *)
Lemma renderRow_other g py data py' px' (c : nat) :
  (px' < width)%nat -> (c < 4)%nat -> py <> py' ->
  row g py data !! (index py' px' + c)%nat
  = data !! (index py' px' + c)%nat.
Proof.
  intros Hx' Hc Hne. unfold renderRow.
  apply foldl_frame. intros px d' Hin.
  apply elem_of_seq in Hin.
  apply renderPixel_other.
  pose proof (pixelIndex_rows py py' px px'). lia.
Qed.

Lemma renderRow_at g py px data (c : nat) :
  length data = (width * height * 4)%nat ->
  (px < width)%nat -> (py < height)%nat -> (c < 4)%nat ->
  row g py data !! (index py px + c)%nat = bytes g py px !! c.
Proof.
  intros Hlen Hx Hy Hc.
  destruct (lookup_lt_is_Some_2 (bytes g py px) c) as [v Hv];
    [rewrite pixelBytes_length; lia|].
  rewrite Hv. unfold renderRow.
  apply (foldl_hit _ (fun d => length d = (width * height * 4)%nat) px).
  - intros k d' Hd. by rewrite renderPixel_length.
  - intros d' Hd. rewrite renderPixel_at; [done| |done].
    rewrite Hd. by apply pixelIndex_bound.
  - intros k d' Hd Hk. apply renderPixel_other.
    unfold pixelIndex. lia.
  - intros k. apply _.
  - done.
  - right. apply elem_of_seq. lia.
Qed.

(** Every pixel of the canvas ends up holding its four bytes. *)
Lemma renderRows_at g py px data (c : nat) :
  length data = (width * height * 4)%nat ->
  (px < width)%nat -> (py < height)%nat -> (c < 4)%nat ->
  rows g data !! (index py px + c)%nat = bytes g py px !! c.
Proof.
  intros Hlen Hx Hy Hc.
  destruct (lookup_lt_is_Some_2 (bytes g py px) c) as [v Hv];
    [rewrite pixelBytes_length; lia|].
  rewrite Hv. unfold renderRows.
  apply (foldl_hit _ (fun d => length d = (width * height * 4)%nat) py).
  - intros k d' Hd. by rewrite renderRow_length.
  - intros d' Hd. by rewrite renderRow_at.
  - intros k d' Hd Hk. by apply renderRow_other.
  - intros k. apply _.
  - done.
  - right. apply elem_of_seq. lia.
Qed.

(** The loops read the viewport only: not what the canvas shows. *)
Lemma renderPixel_viewport g1 g2 py px data :
  maxIterations g1 = maxIterations g2 -> zoom g1 = zoom g2 ->
  offsetX g1 = offsetX g2 -> offsetY g1 = offsetY g2 ->
  pixel g1 py px data = pixel g2 py px data.
Proof.
  intros Hm Hz Hox Hoy. unfold renderPixel, planeX, planeY.
  by rewrite Hm, Hz, Hox, Hoy.
Qed.

Lemma renderRows_viewport g1 g2 data :
  maxIterations g1 = maxIterations g2 -> zoom g1 = zoom g2 ->
  offsetX g1 = offsetX g2 -> offsetY g1 = offsetY g2 ->
  rows g1 data = rows g2 data.
Proof.
  intros Hm Hz Hox Hoy. unfold renderRows.
  revert data. induction (seq 0 height) as [|py pys IHrows]; intros data; simpl; [done|].
  rewrite IHrows. f_equal. unfold renderRow.
  revert data. induction (seq 0 width) as [|px pxs IHrow]; intros data; simpl; [done|].
  rewrite IHrow. f_equal. by apply renderPixel_viewport.
Qed.

Lemma generateMandelbrot_runs g :
  (0 < width)%nat -> (0 < height)%nat ->
  generateMandelbrot width height g
  = Normal (putImageData (rows g (replicate (width * height * 4) 0)) g).
Proof.
  intros Hw Hh. unfold generateMandelbrot, createImageData.
  destruct width, height; simpl; try lia. done.
Qed.

Lemma generateMandelbrot_pixel g py px (c : nat) :
  (px < width)%nat -> (py < height)%nat -> (c < 4)%nat ->
  exists g',
    generateMandelbrot width height g = Normal g' /\
    maxIterations g' = maxIterations g /\ zoom g' = zoom g /\
    offsetX g' = offsetX g /\ offsetY g' = offsetY g /\
    length (canvasPixels g') = (width * height * 4)%nat /\
    canvasPixels g' !! (index py px + c)%nat = bytes g py px !! c.
Proof.
  intros Hx Hy Hc. eexists. split; [apply generateMandelbrot_runs; lia|].
  simpl. repeat split.
  - by rewrite renderRows_length, length_replicate.
  - apply renderRows_at; try done. by rewrite length_replicate.
Qed.

End RenderFacts.

(** ** Rounding in binary64

    What [SpecFloat]'s rounding does to a mantissa in the normal range, and
    from it one step of the zoom in each direction. *)

Section Rounding.

Local Abbreviation prec := 53.
Local Abbreviation emax := 1024.

Lemma Zdigits2_log2 (p : positive) : Zdigits2 (Zpos p) = Z.log2 (Zpos p) + 1.
Proof.
  simpl. induction p as [p IH|p IH|]; simpl; try reflexivity.
  - destruct p; simpl in *; lia.
  - destruct p; simpl in *; lia.
Qed.

Lemma Zdigits2_bounds (p : positive) :
  2 ^ (Zdigits2 (Zpos p) - 1) <= Zpos p < 2 ^ Zdigits2 (Zpos p).
Proof.
  rewrite Zdigits2_log2.
  replace (Z.log2 (Zpos p) + 1 - 1) with (Z.log2 (Zpos p)) by lia.
  apply Z.log2_spec. lia.
Qed.

Lemma Zdigits2_unique (p : positive) (d : Z) :
  2 ^ (d - 1) <= Zpos p < 2 ^ d -> Zdigits2 (Zpos p) = d.
Proof.
  intros Hb. rewrite Zdigits2_log2.
  assert (0 < d).
  { destruct (Z_lt_le_dec 0 d) as [|Hle]; [assumption|].
    destruct (Z.eq_dec d 0) as [->|]; [simpl in Hb; lia|].
    rewrite (Z.pow_neg_r 2 d) in Hb by lia. lia. }
  rewrite (Z.log2_unique (Zpos p) (d - 1)); [lia|lia|].
  replace (Z.succ (d - 1)) with d by lia. exact Hb.
Qed.

Lemma shr_1_m (mrs : shr_record) :
  0 <= shr_m mrs -> shr_m (shr_1 mrs) = shr_m mrs / 2.
Proof.
  destruct mrs as [m r s]. simpl. intros Hm.
  destruct m as [|[p|p|]|p]; simpl; try lia; try reflexivity.
  - rewrite (Pos2Z.inj_xI p). apply (Z.div_unique _ 2 _ 1); lia.
  - rewrite (Pos2Z.inj_xO p). apply (Z.div_unique _ 2 _ 0); lia.
Qed.

Lemma iter_shr_m (n : positive) (mrs : shr_record) :
  0 <= shr_m mrs ->
  shr_m (SpecFloat.iter_pos shr_1 n mrs) = shr_m mrs / 2 ^ Zpos n.
Proof.
  revert mrs. induction n as [n IH|n IH|]; intros mrs Hm; simpl SpecFloat.iter_pos.
  - assert (0 < 2 ^ Z.pos n) as Hpow by (apply Z.pow_pos_nonneg; lia).
    assert (0 <= shr_m (shr_1 mrs))
      by (rewrite shr_1_m by assumption; apply Z.div_pos; lia).
    assert (0 <= shr_m (SpecFloat.iter_pos shr_1 n (shr_1 mrs)))
      by (rewrite IH by assumption; apply Z.div_pos; assumption).
    rewrite IH, IH, shr_1_m by assumption.
    rewrite !Z.div_div by lia.
    f_equal. rewrite (Pos2Z.inj_xI n).
    replace (2 * Z.pos n + 1) with (1 + Z.pos n + Z.pos n) by lia.
    rewrite (Z.pow_add_r 2 (1 + Z.pos n) (Z.pos n)), (Z.pow_add_r 2 1 (Z.pos n)) by lia.
    change (2 ^ 1) with 2. ring.
  - assert (0 < 2 ^ Z.pos n) as Hpow by (apply Z.pow_pos_nonneg; lia).
    assert (0 <= shr_m (SpecFloat.iter_pos shr_1 n mrs))
      by (rewrite IH by assumption; apply Z.div_pos; assumption).
    rewrite IH, IH by assumption.
    rewrite Z.div_div by lia.
    f_equal. rewrite (Pos2Z.inj_xO n).
    replace (2 * Z.pos n) with (Z.pos n + Z.pos n) by lia.
    symmetry. apply Z.pow_add_r; lia.
  - rewrite shr_1_m by assumption. reflexivity.
Qed.

Lemma shr_record_of_loc_m (m : Z) (l : location) : shr_m (shr_record_of_loc m l) = m.
Proof. destruct l as [|[]]; reflexivity. Qed.

(** [shr_fexp] divides the mantissa by the power of two that brings it to
    the format's precision, and moves the exponent by as much. *)
Lemma shr_fexp_m (m e : Z) (l : location) :
  0 <= m ->
  let n := Z.max 0 (fexp prec emax (Zdigits2 m + e) - e) in
  shr_m (fst (shr_fexp prec emax m e l)) = m / 2 ^ n /\
  snd (shr_fexp prec emax m e l) = e + n.
Proof.
  intros Hm n. unfold shr_fexp, shr. subst n.
  destruct (fexp prec emax (Zdigits2 m + e) - e) as [|k|k] eqn:Hk; simpl fst; simpl snd.
  - rewrite shr_record_of_loc_m. simpl. rewrite Z.div_1_r. lia.
  - rewrite iter_shr_m by (rewrite shr_record_of_loc_m; assumption).
    rewrite shr_record_of_loc_m. rewrite Z.max_r by lia. lia.
  - rewrite shr_record_of_loc_m. rewrite Z.max_l by lia. simpl. rewrite Z.div_1_r. lia.
Qed.

Lemma round_nearest_even_bounds (m : Z) (l : location) :
  m <= round_nearest_even m l <= m + 1.
Proof. destruct l as [|[]]; simpl; try lia. destruct (Z.even m); lia. Qed.

Lemma fexp_normal (x : Z) : -1074 <= x - 53 -> fexp prec emax x = x - 53.
Proof. unfold fexp, emin. lia. Qed.

(** Rounding a mantissa of at least 53 bits whose value lies in the normal
    range: the result is a normal double (or an infinity when the exponent
    leaves the format) and the mantissa kept is within one unit of the
    exact one. *)
Lemma binary_round_aux_normal (s : bool) (p : positive) (e : Z) (l : location) :
  let d := Zdigits2 (Zpos p) in
  53 <= d -> -1074 <= d + e - 53 ->
  exists (m' : positive) (e' : Z),
    binary_round_aux prec emax s (Zpos p) e l
    = (if e' <=? 971 then S754_finite s m' e' else S754_infinity s) /\
    d + e - 53 <= e' <= d + e - 52 /\
    2 ^ 52 <= Zpos m' < 2 ^ 53 /\
    (Zpos m' - 1) * 2 ^ (e' - e) <= Zpos p < (Zpos m' + 1) * 2 ^ (e' - e).
Proof.
  cbv zeta. pose proof (Zdigits2_bounds p) as Hp.
  destruct (shr_fexp_m (Zpos p) e l ltac:(lia)) as [Hm1 He1].
  remember (Zdigits2 (Zpos p)) as d eqn:Hdeq. intros Hd He.
  assert (0 < 2 ^ (d - 53)) as Hpow by (apply Z.pow_pos_nonneg; lia).
  assert (2 ^ (d - 1) = 2 ^ 52 * 2 ^ (d - 53)) as Hlo
    by (rewrite <- Z.pow_add_r by lia; f_equal; lia).
  assert (2 ^ d = 2 ^ 53 * 2 ^ (d - 53)) as Hhi
    by (rewrite <- Z.pow_add_r by lia; f_equal; lia).
  rewrite fexp_normal in Hm1, He1 by lia.
  replace (Z.max 0 (d + e - 53 - e)) with (d - 53) in Hm1, He1 by lia.
  unfold binary_round_aux.
  destruct (shr_fexp prec emax (Zpos p) e l) as [mrs1 e1]. cbn [fst snd] in Hm1, He1.
  set (m1 := shr_m mrs1) in *.
  assert (2 ^ 52 <= m1 < 2 ^ 53) as Hm1b.
  { rewrite Hm1. split.
    - apply Z.div_le_lower_bound; lia.
    - apply Z.div_lt_upper_bound; lia. }
  assert (m1 * 2 ^ (d - 53) <= Zpos p < (m1 + 1) * 2 ^ (d - 53)) as Hm1v.
  { rewrite Hm1. split.
    - rewrite Z.mul_comm. apply Z.mul_div_le. lia.
    - rewrite Z.mul_comm. 
      pose proof (Z.mul_succ_div_gt (Zpos p) (2 ^ (d - 53)) Hpow). lia. }
  pose proof (round_nearest_even_bounds m1 (loc_of_shr_record mrs1)) as Hm2.
  set (m2 := round_nearest_even m1 (loc_of_shr_record mrs1)) in *.
  destruct m2 as [|q2|q2] eqn:Hq2; try lia.
  destruct (shr_fexp_m (Zpos q2) e1 loc_Exact ltac:(lia)) as [Hm3 He3].
  destruct (shr_fexp prec emax (Zpos q2) e1 loc_Exact) as [mrs2 e2]. cbn [fst snd] in Hm3, He3.
  destruct (Z_lt_le_dec (Zpos q2) (2 ^ 53)) as [Hlt|Hge].
  - (* no carry *)
    rewrite (Zdigits2_unique q2 53) in Hm3, He3 by (change (53 - 1) with 52; lia).
    rewrite fexp_normal in Hm3, He3 by lia.
    replace (Z.max 0 (53 + e1 - 53 - e1)) with 0 in Hm3, He3 by lia.
    rewrite Z.pow_0_r, Z.div_1_r in Hm3.
    rewrite Hm3. exists q2, e2.
    replace (e2 - e) with (d - 53) by lia.
    change (emax - prec) with 971.
    repeat split; try lia; nia.
  - (* the rounding carried into a 54th bit *)
    assert (Zpos q2 = 2 ^ 53) as Hq by lia.
    rewrite (Zdigits2_unique q2 54) in Hm3, He3 by (change (54 - 1) with 53; rewrite Hq; lia).
    rewrite fexp_normal in Hm3, He3 by lia.
    replace (Z.max 0 (54 + e1 - 53 - e1)) with 1 in Hm3, He3 by lia.
    rewrite Hq in Hm3. change (2 ^ 53 / 2 ^ 1) with (2 ^ 52) in Hm3.
    rewrite Hm3. change (2 ^ 52) with (Zpos (2 ^ 52)%positive).
    exists (2 ^ 52)%positive, e2.
    replace (e2 - e) with (1 + (d - 53)) by lia.
    rewrite Z.pow_add_r by lia. change (2 ^ 1) with 2.
    change (emax - prec) with 971.
    change (Zpos (2 ^ 52)%positive) with (2 ^ 52).
    repeat split; try lia; nia.
Qed.

Local Abbreviation M11 := Float64.mantissa_1_1.
Local Abbreviation relClose := Float64.relClose.

Lemma lit_1_1_double : lit_1_1 (num:=f64) = S754_finite false M11 (-52).
Proof. vm_compute. reflexivity. Qed.

(** One zoom-in step on a normal double that stays clear of overflow. *)
Lemma zoomIn_normal (m : positive) (e : Z) :
  2 ^ 52 <= Zpos m < 2 ^ 53 -> -1074 <= e <= 969 ->
  exists (m1 : positive) (e1 : Z),
    zoomIn (num:=f64) (S754_finite false m e) = S754_finite false m1 e1 /\
    e <= e1 <= e + 2 /\
    2 ^ 52 <= Zpos m1 < 2 ^ 53 /\
    (Zpos m1 - 1) * 2 ^ (e1 - e + 52) <= Zpos m * Zpos M11
      < (Zpos m1 + 1) * 2 ^ (e1 - e + 52).
Proof.
  intros Hm He. unfold zoomIn. rewrite lit_1_1_double.
  change (n_mul (S754_finite false m e) (S754_finite false M11 (-52)))
    with (binary_round_aux prec emax false (Zpos (m * M11)) (e + -52) loc_Exact).
  assert (2 ^ 104 <= Zpos (m * M11) < 2 ^ 106) as Hprod.
  { rewrite Pos2Z.inj_mul. unfold Float64.mantissa_1_1. nia. }
  assert (Zdigits2 (Zpos (m * M11)) = 105 \/ Zdigits2 (Zpos (m * M11)) = 106) as Hd.
  { destruct (Z_lt_le_dec (Zpos (m * M11)) (2 ^ 105)).
    - left. apply Zdigits2_unique. change (105 - 1) with 104. lia.
    - right. apply Zdigits2_unique. change (106 - 1) with 105. lia. }
  destruct (binary_round_aux_normal false (m * M11) (e + -52) loc_Exact)
    as (m1 & e1 & Heq & He1 & Hm1 & Hv); [lia|lia|].
  exists m1, e1. rewrite Heq.
  replace (e1 <=? 971) with true by (symmetry; apply Z.leb_le; lia).
  replace (e1 - (e + -52)) with (e1 - e + 52) in Hv by lia.
  rewrite Pos2Z.inj_mul in Hv.
  repeat split; try lia.
Qed.

(** One zoom-out step on a normal double that stays clear of underflow. *)
Lemma zoomOut_normal (m : positive) (e : Z) :
  2 ^ 52 <= Zpos m < 2 ^ 53 -> -1073 <= e <= 970 ->
  exists (m1 : positive) (e1 q : Z),
    zoomOut (num:=f64) (S754_finite false m e) = S754_finite false m1 e1 /\
    e - 1 <= e1 <= e + 1 /\
    2 ^ 52 <= Zpos m1 < 2 ^ 53 /\
    Zpos M11 * q <= Zpos m * 2 ^ 53 < Zpos M11 * q + Zpos M11 /\
    (Zpos m1 - 1) * 2 ^ (e1 - e + 1) <= q < (Zpos m1 + 1) * 2 ^ (e1 - e + 1).
Proof.
  intros Hm He. unfold zoomOut. rewrite lit_1_1_double.
  change (n_div (S754_finite false m e) (S754_finite false M11 (-52)))
    with (let '(mz, ez, lz) := SFdiv_core_binary prec emax (Zpos m) e (Zpos M11) (-52) in
          binary_round_aux prec emax false mz ez lz).
  unfold SFdiv_core_binary.
  rewrite (Zdigits2_unique m 53) by (change (53 - 1) with 52; lia).
  change (Zdigits2 (Zpos M11)) with 53.
  replace (53 + e - (53 + -52)) with (e + 52) by lia.
  rewrite fexp_normal by lia.
  replace (Z.min (e + 52 - 53) (e - -52)) with (e - 1) by lia.
  replace (e - -52 - (e - 1)) with 53 by lia.
  rewrite Z.shiftl_mul_pow2 by lia.
  pose proof (Z_div_mod (Zpos m * 2 ^ 53) (Zpos M11) ltac:(lia)) as Hdiv.
  destruct (Z.div_eucl (Zpos m * 2 ^ 53) (Zpos M11)) as [q r].
  destruct Hdiv as [Hq Hr].
  assert (2 ^ 52 <= q < 2 ^ 54) as Hqb by (unfold Float64.mantissa_1_1 in *; lia).
  destruct q as [|pq|pq]; try lia.
  assert (Zdigits2 (Zpos pq) = 53 \/ Zdigits2 (Zpos pq) = 54) as Hd.
  { destruct (Z_lt_le_dec (Zpos pq) (2 ^ 53)).
    - left. apply Zdigits2_unique. change (53 - 1) with 52. lia.
    - right. apply Zdigits2_unique. change (54 - 1) with 53. lia. }
  destruct (binary_round_aux_normal false pq (e - 1) (new_location (Zpos M11) r))
    as (m1 & e1 & Heq & He1 & Hm1 & Hv); [lia|lia|].
  exists m1, e1, (Zpos pq). rewrite Heq.
  replace (e1 <=? 971) with true by (symmetry; apply Z.leb_le; lia).
  replace (e1 - (e - 1)) with (e1 - e + 1) in Hv by lia.
  repeat split; try lia.
Qed.

Lemma close_scaled (A' A : Z) (t : Q) :
  (0 < t)%Q -> 0 <= A -> 10 ^ 9 * Z.abs (A' - A) <= A ->
  (Qabs (inject_Z A' * t - inject_Z A * t) <= (1 # 10 ^ 9) * Qabs (inject_Z A * t))%Q.
Proof.
  intros Ht HA Hclose.
  assert (inject_Z A' * t - inject_Z A * t == inject_Z (A' - A) * t)%Q as ->
    by (unfold Z.sub; rewrite inject_Z_plus, inject_Z_opp; ring).
  rewrite !Qabs_Qmult, (Qabs_pos t) by (apply Qlt_le_weak; exact Ht).
  change (Qabs (inject_Z (A' - A))) with (inject_Z (Z.abs (A' - A))).
  change (Qabs (inject_Z A)) with (inject_Z (Z.abs A)).
  rewrite (Z.abs_eq A) by exact HA.
  rewrite Qmult_assoc. apply Qmult_le_compat_r; [|apply Qlt_le_weak; exact Ht].
  unfold Qle. simpl. lia.
Qed.

Lemma pow2_split (a b : Z) : (2 ^ (a + b) == 2 ^ a * 2 ^ b)%Q.
Proof. apply Qpower_plus. discriminate. Qed.

Lemma pow2_inject (k : Z) : 0 <= k -> (2 ^ k == inject_Z (2 ^ k))%Q.
Proof. intros Hk. rewrite Zpower_Qpower by exact Hk. reflexivity. Qed.

(** Two positive doubles whose exponents differ by [e' - e] are close when
    their mantissas, brought to the smaller exponent, are. *)
Lemma relClose_shift (m m' : positive) (e e' : Z) :
  (0 <= e' - e -> 10 ^ 9 * Z.abs (Zpos m' * 2 ^ (e' - e) - Zpos m) <= Zpos m) ->
  (e' - e < 0 ->
   10 ^ 9 * Z.abs (Zpos m' - Zpos m * 2 ^ (e - e')) <= Zpos m * 2 ^ (e - e')) ->
  relClose (1 # 10 ^ 9) (S754_finite false m' e') (S754_finite false m e).
Proof.
  intros Hup Hdown. unfold Float64.relClose, Float64.to_Q, cond_Zopp.
  destruct (Z_le_gt_dec 0 (e' - e)) as [Hk|Hk].
  - replace e' with ((e' - e) + e) at 1 by lia.
    rewrite pow2_split. rewrite (pow2_inject (e' - e) Hk).
    rewrite Qmult_assoc, <- inject_Z_mult.
    apply close_scaled; [apply Qpower_0_lt; reflexivity|lia|auto].
  - replace (2 ^ e)%Q with (2 ^ ((e - e') + e'))%Q by (f_equal; lia).
    rewrite pow2_split. rewrite (pow2_inject (e - e') ltac:(lia)).
    rewrite !Qmult_assoc, <- inject_Z_mult.
    assert (0 < 2 ^ (e - e')) by (apply Z.pow_pos_nonneg; lia).
    apply close_scaled; [apply Qpower_0_lt; reflexivity|lia|apply Hdown; lia].
Qed.

Local Ltac norm_pow2 :=
  repeat match goal with
  | H : context [2 ^ ?x] |- _ =>
      lazymatch x with
      | Zpos _ => fail
      | Z0 => fail
      | _ => progress (ring_simplify x in H)
      end
  | |- context [2 ^ ?x] =>
      lazymatch x with
      | Zpos _ => fail
      | Z0 => fail
      | _ => progress (ring_simplify x)
      end
  end.

Lemma round_trip_normal (m : positive) (e : Z) :
  2 ^ 52 <= Zpos m < 2 ^ 53 -> -1073 <= e <= 968 ->
  relClose (1 # 10 ^ 9) (zoomOut (zoomIn (num:=f64) (S754_finite false m e)))
                        (S754_finite false m e) /\
  relClose (1 # 10 ^ 9) (zoomIn (zoomOut (num:=f64) (S754_finite false m e)))
                        (S754_finite false m e).
Proof.
  intros Hm He. split.
  - destruct (zoomIn_normal m e Hm ltac:(lia)) as (m1 & e1 & -> & He1 & Hm1 & Hv1).
    destruct (zoomOut_normal m1 e1 Hm1 ltac:(lia))
      as (m2 & e2 & q & -> & He2 & Hm2 & Hq & Hv2).
    assert (e1 = e + 0 \/ e1 = e + 1 \/ e1 = e + 2) as Ha by lia.
    assert (e2 = e1 + -1 \/ e2 = e1 + 0 \/ e2 = e1 + 1) as Hb by lia.
    unfold Float64.mantissa_1_1 in *.
    apply relClose_shift; intros Hk;
      destruct Ha as [-> | [-> | ->]]; destruct Hb as [-> | [-> | ->]];
      norm_pow2; lia.
  - destruct (zoomOut_normal m e Hm ltac:(lia))
      as (m1 & e1 & q & -> & He1 & Hm1 & Hq & Hv1).
    destruct (zoomIn_normal m1 e1 Hm1 ltac:(lia)) as (m2 & e2 & -> & He2 & Hm2 & Hv2).
    assert (e1 = e + -1 \/ e1 = e + 0 \/ e1 = e + 1) as Ha by lia.
    assert (e2 = e1 + 0 \/ e2 = e1 + 1 \/ e2 = e1 + 2) as Hb by lia.
    unfold Float64.mantissa_1_1 in *.
    apply relClose_shift; intros Hk;
      destruct Ha as [-> | [-> | ->]]; destruct Hb as [-> | [-> | ->]];
      norm_pow2; lia.
Qed.

(** The double of a negative integer is negative: finite, or minus
    infinity when the integer is beyond the format. *)
Lemma of_Z_neg (p : positive) :
  (exists m e, Float64.of_Z (Zneg p) = S754_finite true m e) \/
  Float64.of_Z (Zneg p) = S754_infinity true.
Proof.
  unfold Float64.of_Z, binary_normalize, binary_round, shl_align.
  pose proof (Zdigits2_bounds p) as Hp.
  change (Zpos (digits2_pos p)) with (Zdigits2 (Zpos p)).
  assert (1 <= Zdigits2 (Zpos p)) by (simpl; lia).
  remember (Zdigits2 (Zpos p)) as d eqn:Hd.
  rewrite Z.add_0_r, fexp_normal, Z.sub_0_r by lia.
  assert (forall q ez, 53 <= Zdigits2 (Zpos q) -> -1074 <= Zdigits2 (Zpos q) + ez - 53 ->
    (exists m e, binary_round_aux prec emax true (Zpos q) ez loc_Exact = S754_finite true m e) \/
    binary_round_aux prec emax true (Zpos q) ez loc_Exact = S754_infinity true) as Hround.
  { intros q ez H1 H2.
    destruct (binary_round_aux_normal true q ez loc_Exact H1 H2) as (m' & e' & Heq & _).
    destruct (e' <=? 971); [left; eauto|right; exact Heq]. }
  destruct (d - 53) as [|k|k] eqn:Hk.
  - apply Hround; lia.
  - apply Hround; lia.
  - assert (Zpos (Pos.iter xO p k) = Zpos p * 2 ^ Zpos k) as Hshift.
    { change (Pos.iter xO p k) with (shift_pos k p).
      rewrite shift_pos_correct, Z.pow_pos_fold. lia. }
    assert (Zdigits2 (Zpos (Pos.iter xO p k)) = 53) as Hd53.
    { apply Zdigits2_unique. rewrite Hshift. change (53 - 1) with 52.
      assert (0 < 2 ^ Zpos k) by (apply Z.pow_pos_nonneg; lia).
      replace (2 ^ 52) with (2 ^ (d - 1) * 2 ^ Zpos k)
        by (rewrite <- Z.pow_add_r by lia; f_equal; lia).
      replace (2 ^ 53) with (2 ^ d * 2 ^ Zpos k)
        by (rewrite <- Z.pow_add_r by lia; f_equal; lia).
      nia. }
    apply Hround; lia.
Qed.

End Rounding.

(** ** Sums and differences in binary64

    A finite sum or difference of two doubles is the exact one rounded, so
    within a relative [2^-52] of it (exact when the result is subnormal). *)

Section AddSub.

Local Abbreviation prec := 53.
Local Abbreviation emax := 1024.

Lemma shr_fexp_still (m e : Z) (l : location) :
  fexp prec emax (Zdigits2 m + e) - e <= 0 ->
  shr_fexp prec emax m e l = (shr_record_of_loc m l, e).
Proof.
  intros Hn. unfold shr_fexp, shr.
  destruct (fexp prec emax (Zdigits2 m + e) - e); try reflexivity. lia.
Qed.

(** A mantissa that already fits its exponent is kept as it is. *)
Lemma binary_round_aux_exact (s : bool) (p : positive) (e : Z) :
  fexp prec emax (Zdigits2 (Zpos p) + e) = e ->
  binary_round_aux prec emax s (Zpos p) e loc_Exact
  = if e <=? 971 then S754_finite s p e else S754_infinity s.
Proof.
  intros Hc. unfold binary_round_aux.
  rewrite shr_fexp_still by lia. simpl shr_m. simpl loc_of_shr_record.
  simpl round_nearest_even. rewrite shr_fexp_still by lia. reflexivity.
Qed.

Lemma shl_align_spec (p : positive) (e e' : Z) :
  let '(mz, ez) := shl_align p e e' in
  ez = Z.min e e' /\ Zpos mz = Zpos p * 2 ^ (e - ez).
Proof.
  unfold shl_align. destruct (e' - e) as [|k|k] eqn:Hk.
  - split; [lia|]. replace (e - e) with 0 by lia. lia.
  - split; [lia|]. replace (e - e) with 0 by lia. lia.
  - split; [lia|]. change (Pos.iter xO p k) with (shift_pos k p).
    rewrite shift_pos_correct, Z.pow_pos_fold.
    replace (e - e') with (Zpos k) by lia. lia.
Qed.

Lemma Zdigits2_shift (p q : positive) (k : Z) :
  0 <= k -> Zpos q = Zpos p * 2 ^ k -> Zdigits2 (Zpos q) = Zdigits2 (Zpos p) + k.
Proof.
  intros Hk Hq. apply Zdigits2_unique. rewrite Hq.
  pose proof (Zdigits2_bounds p) as Hp.
  assert (1 <= Zdigits2 (Zpos p)) by (simpl; lia).
  assert (0 < 2 ^ k) by (apply Z.pow_pos_nonneg; lia).
  replace (Zdigits2 (Zpos p) + k - 1) with ((Zdigits2 (Zpos p) - 1) + k) by lia.
  rewrite !Z.pow_add_r by lia. nia.
Qed.

(** Rounding an integer mantissa at an exponent of the format: the result
    is the same number when it fits, and otherwise a normal double within
    one unit in the last place, or an infinity. *)
Lemma binary_round_spec (s : bool) (p : positive) (e : Z) :
  -1074 <= e ->
  exists (m' : positive) (e' : Z),
    binary_round prec emax s p e
    = (if e' <=? 971 then S754_finite s m' e' else S754_infinity s) /\
    -1074 <= e' /\
    ((e' <= e /\ Zpos m' = Zpos p * 2 ^ (e - e')) \/
     (e <= e' /\ 2 ^ 52 <= Zpos m' /\
      (Zpos m' - 1) * 2 ^ (e' - e) <= Zpos p < (Zpos m' + 1) * 2 ^ (e' - e))).
Proof.
  intros He. unfold binary_round.
  change (Zpos (digits2_pos p)) with (Zdigits2 (Zpos p)).
  pose proof (shl_align_spec p e (fexp prec emax (Zdigits2 (Zpos p) + e))) as Hal.
  destruct (shl_align p e (fexp prec emax (Zdigits2 (Zpos p) + e))) as [mz ez].
  destruct Hal as [Hez Hmz].
  assert (1 <= Zdigits2 (Zpos p)) by (simpl; lia).
  destruct (Z_lt_le_dec (Zdigits2 (Zpos p)) 53) as [Hsmall|Hbig].
  - (* fewer than 53 bits: the mantissa is shifted left and nothing is lost *)
    assert (ez = fexp prec emax (Zdigits2 (Zpos p) + e)) as Hfe
      by (unfold fexp, emin in *; lia).
    exists mz, ez. split; [|split; [unfold fexp, emin in *; lia|left; split; [lia|exact Hmz]]].
    apply binary_round_aux_exact.
    rewrite (Zdigits2_shift p mz (e - ez)) by (unfold fexp, emin in *; lia).
    replace (Zdigits2 (Zpos p) + (e - ez) + ez) with (Zdigits2 (Zpos p) + e) by lia.
    symmetry. exact Hfe.
  - (* 53 bits or more: the mantissa is rounded *)
    assert (ez = e) as -> by (unfold fexp, emin in *; lia).
    assert (Zpos mz = Zpos p) as Hsame
      by (rewrite Hmz; replace (e - e) with 0 by lia; lia).
    injection Hsame as ->.
    destruct (binary_round_aux_normal s p e loc_Exact) as (m' & e' & Heq & He' & Hm' & Hv);
      [lia|lia|].
    exists m', e'. split; [exact Heq|]. split; [lia|].
    right. split; [lia|]. split; [lia|exact Hv].
Qed.

Local Abbreviation to_Q := Float64.to_Q.

Lemma cond_Zopp_mul (s : bool) (a b : Z) : cond_Zopp s (a * b) = cond_Zopp s a * b.
Proof. destruct s; simpl; lia. Qed.

Lemma cond_Zopp_abs (s : bool) (a b : Z) :
  Z.abs (cond_Zopp s a - cond_Zopp s b) = Z.abs (a - b).
Proof. destruct s; simpl; lia. Qed.

(** The same number at two exponents. *)
Lemma scale_exponent (a : Z) (e e' : Z) :
  e' <= e -> (inject_Z a * 2 ^ e == inject_Z (a * 2 ^ (e - e')) * 2 ^ e')%Q.
Proof.
  intros Hle. replace (2 ^ e)%Q with (2 ^ ((e - e') + e'))%Q by (f_equal; lia).
  rewrite pow2_split. rewrite (pow2_inject (e - e') ltac:(lia)).
  rewrite inject_Z_mult. ring.
Qed.

Lemma near_scaled (A' A : Z) (t : Q) :
  (0 < t)%Q -> 2 ^ 52 * Z.abs (A' - A) <= Z.abs A' ->
  (Qabs (inject_Z A' * t - inject_Z A * t) <= (1 # 2 ^ 52) * Qabs (inject_Z A' * t))%Q.
Proof.
  intros Ht Hnear.
  assert (inject_Z A' * t - inject_Z A * t == inject_Z (A' - A) * t)%Q as ->
    by (unfold Z.sub; rewrite inject_Z_plus, inject_Z_opp; ring).
  rewrite !Qabs_Qmult, (Qabs_pos t) by (apply Qlt_le_weak; exact Ht).
  change (Qabs (inject_Z (A' - A))) with (inject_Z (Z.abs (A' - A))).
  change (Qabs (inject_Z A')) with (inject_Z (Z.abs A')).
  rewrite Qmult_assoc. apply Qmult_le_compat_r; [|apply Qlt_le_weak; exact Ht].
  unfold Qle. simpl. lia.
Qed.

(** What [binary_round] returns, when finite, is within a relative
    [2^-52] of the number it was given. *)
Lemma binary_round_close (s : bool) (p : positive) (e : Z) (r : Q) :
  -1074 <= e ->
  to_Q (binary_round prec emax s p e) = Some r ->
  (Qabs (r - inject_Z (cond_Zopp s (Zpos p)) * 2 ^ e) <= (1 # 2 ^ 52) * Qabs r)%Q.
Proof.
  intros He Hr.
  destruct (binary_round_spec s p e He) as (m' & e' & Heq & He' & Hcase).
  rewrite Heq in Hr. destruct (e' <=? 971); [|discriminate].
  injection Hr as <-.
  destruct Hcase as [[Hle Hm']|(Hle & Hm' & Hv)].
  - rewrite (scale_exponent (cond_Zopp s (Zpos p)) e e' Hle).
    rewrite <- cond_Zopp_mul, <- Hm'.
    apply near_scaled; [apply Qpower_0_lt; reflexivity|].
    replace (cond_Zopp s (Zpos m') - cond_Zopp s (Zpos m')) with 0 by lia.
    simpl Z.abs at 1. lia.
  - rewrite (scale_exponent (cond_Zopp s (Zpos m')) e' e Hle).
    assert (0 < 2 ^ (e' - e)) by (apply Z.pow_pos_nonneg; lia).
    apply near_scaled; [apply Qpower_0_lt; reflexivity|].
    rewrite <- cond_Zopp_mul, cond_Zopp_abs.
    replace (Z.abs (cond_Zopp s (Zpos m' * 2 ^ (e' - e)))) with (Zpos m' * 2 ^ (e' - e))
      by (destruct s; simpl; lia).
    nia.
Qed.

Lemma valid_expOk (x : spec_float) : valid_binary prec emax x = true -> Float64.expOk x.
Proof.
  destruct x as [| | |s m e]; simpl; try done.
  unfold bounded, canonical_mantissa. intros Hv.
  apply andb_true_iff in Hv as [Hc%Z.eqb_eq _].
  unfold fexp, emin in Hc. lia.
Qed.

Lemma expOk_binary_round_aux (s : bool) (m e : Z) (l : location) :
  0 <= m -> Float64.expOk (binary_round_aux prec emax s m e l).
Proof.
  intros Hm. unfold binary_round_aux.
  destruct (shr_fexp_m m e l Hm) as [Hm1 He1].
  destruct (shr_fexp prec emax m e l) as [mrs1 e1]. cbn [fst snd] in Hm1, He1.
  pose proof (round_nearest_even_bounds (shr_m mrs1) (loc_of_shr_record mrs1)) as Hm2.
  assert (0 <= shr_m mrs1)
    by (rewrite Hm1; apply Z.div_pos; [lia|apply Z.pow_pos_nonneg; lia]).
  destruct (shr_fexp_m (round_nearest_even (shr_m mrs1) (loc_of_shr_record mrs1))
              e1 loc_Exact ltac:(lia)) as [Hm3 He3].
  destruct (shr_fexp prec emax _ e1 loc_Exact) as [mrs2 e2]. cbn [fst snd] in Hm3, He3.
  destruct (shr_m mrs2); try exact I.
  destruct (e2 <=? emax - prec); [|exact I].
  simpl. unfold fexp, emin in He3. lia.
Qed.

Lemma expOk_binary_normalize (m e : Z) (sz : bool) :
  Float64.expOk (binary_normalize prec emax m e sz).
Proof.
  destruct m as [|p|p]; simpl; [exact I| |];
    unfold binary_round; destruct (shl_align _ _ _) as [mz ez];
    apply expOk_binary_round_aux; lia.
Qed.

Lemma expOk_add (x y : spec_float) :
  Float64.expOk x -> Float64.expOk y -> Float64.expOk (SFadd prec emax x y).
Proof.
  destruct x as [sx|sx| |sx mx ex], y as [sy|sy| |sy my ey]; simpl; intros Hx Hy;
    try exact I; try assumption.
  - by destruct sx, sy.
  - by destruct sx, sy.
  - apply expOk_binary_normalize.
Qed.

Lemma expOk_sub (x y : spec_float) :
  Float64.expOk x -> Float64.expOk y -> Float64.expOk (SFsub prec emax x y).
Proof.
  destruct x as [sx|sx| |sx mx ex], y as [sy|sy| |sy my ey]; simpl; intros Hx Hy;
    try exact I; try assumption.
  - by destruct sx, sy.
  - by destruct sx, sy.
  - apply expOk_binary_normalize.
Qed.

Lemma expOk_div (x y : spec_float) : Float64.expOk (SFdiv prec emax x y).
Proof.
  destruct x as [sx|sx| |sx mx ex], y as [sy|sy| |sy my ey]; simpl; try exact I.
  unfold SFdiv_core_binary.
  set (m' := match _ with Z0 => Zpos mx | Zpos _ => _ | Zneg _ => 0 end).
  assert (0 <= m') as Hm'.
  { subst m'. destruct (_ - _ - _) as [|k|k]; [lia| |lia].
    rewrite Z.shiftl_mul_pow2 by lia.
    assert (0 < 2 ^ Zpos k) by (apply Z.pow_pos_nonneg; lia). lia. }
  pose proof (Z_div_mod m' (Zpos my) ltac:(lia)) as Hdiv.
  destruct (Z.div_eucl m' (Zpos my)) as [q r]. destruct Hdiv as [Hq Hr].
  apply expOk_binary_round_aux. nia.
Qed.

Lemma close_same (q q' : Q) :
  (q' == q)%Q -> (Qabs (q - q') <= (1 # 2 ^ 52) * Qabs q)%Q.
Proof.
  intros Heq. assert (q - q' == 0)%Q as -> by (rewrite Heq; ring).
  apply Qmult_le_0_compat; [discriminate|apply Qabs_nonneg].
Qed.

(** Both operands of an addition at the smaller of their exponents. *)
Lemma aligned_value (s : bool) (m : positive) (e ez : Z) :
  ez <= e ->
  (inject_Z (cond_Zopp s (Zpos m)) * 2 ^ e
   == inject_Z (cond_Zopp s (Zpos (fst (shl_align m e ez)))) * 2 ^ ez)%Q.
Proof.
  intros Hle. pose proof (shl_align_spec m e ez) as Hal.
  destruct (shl_align m e ez) as [mz ez']. destruct Hal as [Hez Hmz]. simpl fst.
  rewrite Hmz, cond_Zopp_mul. replace ez' with ez by lia.
  by apply scale_exponent.
Qed.

Lemma normalize_close (M ez : Z) (r : Q) :
  -1074 <= ez ->
  to_Q (binary_normalize prec emax M ez false) = Some r ->
  (Qabs (r - inject_Z M * 2 ^ ez) <= (1 # 2 ^ 52) * Qabs r)%Q.
Proof.
  intros He Hr. destruct M as [|p|p]; simpl in Hr.
  - injection Hr as <-. apply close_same. ring.
  - by apply (binary_round_close false p ez r).
  - by apply (binary_round_close true p ez r).
Qed.

(** A finite sum of two doubles is within a relative [2^-52] of the exact
    sum. *)
Lemma add_close (x y : spec_float) (r : Q) :
  Float64.expOk x -> Float64.expOk y ->
  to_Q (SFadd prec emax x y) = Some r ->
  exists qx qy, to_Q x = Some qx /\ to_Q y = Some qy /\
    (Qabs (r - (qx + qy)) <= (1 # 2 ^ 52) * Qabs r)%Q.
Proof.
  intros Hx Hy Hr.
  destruct x as [sx|sx| |sx mx ex], y as [sy|sy| |sy my ey];
    try (simpl in Hr; discriminate Hr);
    try (destruct sx, sy; simpl in Hr; discriminate Hr).
  - exists 0%Q, 0%Q. split; [done|]. split; [done|].
    assert (r = 0%Q) as -> by (destruct sx, sy; simpl in Hr; congruence).
    apply close_same. ring.
  - simpl in Hr. eexists _, _. split; [done|]. split; [exact Hr|].
    apply close_same. ring.
  - simpl in Hr. eexists _, _. split; [exact Hr|]. split; [done|].
    apply close_same. ring.
  - simpl in Hx, Hy. eexists _, _. split; [reflexivity|]. split; [reflexivity|].
    unfold SFadd in Hr.
    apply normalize_close in Hr; [|lia].
    rewrite (aligned_value sx mx ex (Z.min ex ey)), (aligned_value sy my ey (Z.min ex ey)) by lia.
    rewrite inject_Z_plus in Hr.
    rewrite <- Qmult_plus_distr_l. exact Hr.
Qed.

(** And so is a finite difference. *)
Lemma sub_close (x y : spec_float) (r : Q) :
  Float64.expOk x -> Float64.expOk y ->
  to_Q (SFsub prec emax x y) = Some r ->
  exists qx qy, to_Q x = Some qx /\ to_Q y = Some qy /\
    (Qabs (r - (qx - qy)) <= (1 # 2 ^ 52) * Qabs r)%Q.
Proof.
  intros Hx Hy Hr.
  destruct x as [sx|sx| |sx mx ex], y as [sy|sy| |sy my ey];
    try (simpl in Hr; discriminate Hr);
    try (destruct sx, sy; simpl in Hr; discriminate Hr).
  - exists 0%Q, 0%Q. split; [done|]. split; [done|].
    assert (r = 0%Q) as -> by (destruct sx, sy; simpl in Hr; congruence).
    apply close_same. ring.
  - simpl in Hr. eexists _, _. split; [done|]. split; [reflexivity|].
    injection Hr as <-. apply close_same.
    destruct sy; unfold negb, cond_Zopp;
      change (inject_Z (- Zpos my)) with (- inject_Z (Zpos my))%Q; ring.
  - simpl in Hr. eexists _, _. split; [exact Hr|]. split; [done|].
    apply close_same. ring.
  - simpl in Hx, Hy. eexists _, _. split; [reflexivity|]. split; [reflexivity|].
    unfold SFsub in Hr.
    apply normalize_close in Hr; [|lia].
    rewrite (aligned_value sx mx ex (Z.min ex ey)), (aligned_value sy my ey (Z.min ex ey)) by lia.
    unfold Z.sub in Hr. rewrite inject_Z_plus, inject_Z_opp in Hr.
    assert (forall a b t : Q, a * t - b * t == (a + - b) * t)%Q as Hd by (intros; ring).
    rewrite Hd. exact Hr.
Qed.

(** Subtracting a double from [x0] and adding it back gives [x0] again up to
    the two roundings. *)
Lemma sub_add_back (x0 a : spec_float) (q1 qo : Q) :
  Float64.expOk x0 -> Float64.expOk a ->
  to_Q (SFsub prec emax x0 a) = Some qo ->
  to_Q (SFadd prec emax a (SFsub prec emax x0 a)) = Some q1 ->
  exists q0, to_Q x0 = Some q0 /\
    (Qabs (q1 - q0) <= (1 # 2 ^ 52) * (Qabs q1 + Qabs qo))%Q.
Proof.
  intros Hx0 Ha Ho H1.
  destruct (sub_close x0 a qo Hx0 Ha Ho) as (q0 & qa & Hq0 & Hqa & Hsub).
  destruct (add_close a _ q1 Ha (expOk_sub x0 a Hx0 Ha) H1)
    as (qa' & qo' & Hqa' & Hqo' & Hadd).
  assert (qa' = qa) as -> by congruence.
  assert (qo' = qo) as -> by congruence.
  exists q0. split; [exact Hq0|].
  assert (q1 - q0 == (q1 - (qa + qo)) + (qo - (q0 - qa)))%Q as -> by ring.
  eapply Qle_trans; [apply Qabs_triangle|].
  rewrite Qmult_plus_distr_r. by apply Qplus_le_compat.
Qed.

Lemma pointer_fixed_rounded (width height : nat) (g : globals (num:=f64))
    (mouseX mouseY deltaY : f64) :
  valid_binary prec emax (offsetX g) = true ->
  valid_binary prec emax (offsetY g) = true ->
  let g' := zoomAt width height mouseX mouseY deltaY g in
  (forall q1 qo,
     to_Q (planeX width g' mouseX) = Some q1 -> to_Q (offsetX g') = Some qo ->
     exists q0, to_Q (planeX width g mouseX) = Some q0 /\
       (Qabs (q1 - q0) <= (1 # 2 ^ 52) * (Qabs q1 + Qabs qo))%Q) /\
  (forall q1 qo,
     to_Q (planeY height g' mouseY) = Some q1 -> to_Q (offsetY g') = Some qo ->
     exists q0, to_Q (planeY height g mouseY) = Some q0 /\
       (Qabs (q1 - q0) <= (1 # 2 ^ 52) * (Qabs q1 + Qabs qo))%Q).
Proof.
  intros Hvx Hvy g'. subst g'. split; intros q1 qo H1 Ho.
  - apply (sub_add_back _ _ q1 qo) in Ho; [exact Ho| | |exact H1].
    + apply expOk_add; [apply expOk_div|by apply valid_expOk].
    + apply expOk_div.
  - apply (sub_add_back _ _ q1 qo) in Ho; [exact Ho| | |exact H1].
    + apply expOk_add; [apply expOk_div|by apply valid_expOk].
    + apply expOk_div.
Qed.

End AddSub.

(** ** The rendered canvas, pixel by pixel *)

Section RenderClaims.

Context {num : Type} `{Number num}.
Variables width height : nat.

(** C2.  For every pixel ([px], [py]) of the canvas, the point that
    [generateMandelbrot] evaluates is the one the specification gives,
    [x0 = (px − width/2) × (4/width) / zoom + offsetX] and
    [y0 = (py − height/2) × (4/height) / zoom + offsetY]: the script's
    expressions are these formulas, and the bytes it leaves in the canvas
    for that pixel are the colour of the escape count at that point. *)
Theorem pixel_plane_coordinate (g : globals) (px py c : nat) :
  (px < width)%nat -> (py < height)%nat -> (c < 4)%nat ->
  let x0 := specCoordinate width (zoom g) (offsetX g) (lit (Z.of_nat px)) in
  let y0 := specCoordinate height (zoom g) (offsetY g) (lit (Z.of_nat py)) in
  planeX width g (lit (Z.of_nat px)) = x0 /\
  planeY height g (lit (Z.of_nat py)) = y0 /\
  exists g',
    generateMandelbrot width height g = Normal g' /\
    canvasPixels g' !! (pixelIndex width py px + c)%nat
    = colorBytes (pixelColor (escapeTime x0 y0 (maxIterations g)) (maxIterations g)) !! c.
Proof.
  intros Hx Hy Hc x0 y0. split; [done|]. split; [done|].
  destruct (generateMandelbrot_pixel width height g py px c Hx Hy Hc)
    as (g' & Hrun & _ & _ & _ & _ & _ & Hpix).
  exists g'. split; [done|]. by rewrite Hpix.
Qed.

(** C3.  For every pixel, the iteration count that [generateMandelbrot]
    colours is the result of the reference recurrence run from
    [x = 0, y = 0, iteration = 0]: the recurrence has exactly one result,
    the test [x² + y² ≤ 4 and iteration < budget] is made before each
    step, and the canvas holds the colour of that result. *)
Theorem pixel_iteration_reference (g : globals) (px py c : nat) :
  (px < width)%nat -> (py < height)%nat -> (c < 4)%nat ->
  let x0 := planeX width g (lit (Z.of_nat px)) in
  let y0 := planeY height g (lit (Z.of_nat py)) in
  exists n,
    referenceRun x0 y0 (maxIterations g) (lit 0) (lit 0) 0 n /\
    (forall n', referenceRun x0 y0 (maxIterations g) (lit 0) (lit 0) 0 n' -> n' = n) /\
    exists g',
      generateMandelbrot width height g = Normal g' /\
      canvasPixels g' !! (pixelIndex width py px + c)%nat
      = colorBytes (pixelColor n (maxIterations g)) !! c.
Proof.
  intros Hx Hy Hc x0 y0.
  exists (escapeTime x0 y0 (maxIterations g)). split; [|split].
  - apply escapeLoop_reference.
  - intros n' Hrun. by apply referenceRun_unique.
  - destruct (generateMandelbrot_pixel width height g py px c Hx Hy Hc)
      as (g' & Hrun & _ & _ & _ & _ & _ & Hpix).
    exists g'. split; [done|]. by rewrite Hpix.
Qed.


(** C6.  Rendering is a function of the viewport and the canvas size:
    two states with the same [maxIterations], [zoom], [offsetX] and
    [offsetY] give the same outcome whatever the canvas showed before, and
    a second call, made in the state the first one left, produces the
    same state again, byte for byte. *)
Theorem render_deterministic (g1 g2 : globals) :
  maxIterations g1 = maxIterations g2 -> zoom g1 = zoom g2 ->
  offsetX g1 = offsetX g2 -> offsetY g1 = offsetY g2 ->
  generateMandelbrot width height g1 = generateMandelbrot width height g2 /\
  (forall g', generateMandelbrot width height g1 = Normal g' ->
              generateMandelbrot width height g' = Normal g').
Proof.
  intros Hm Hz Hox Hoy.
  assert (forall a b : globals,
    maxIterations a = maxIterations b -> zoom a = zoom b ->
    offsetX a = offsetX b -> offsetY a = offsetY b ->
    generateMandelbrot width height a = generateMandelbrot width height b) as Hsame.
  { intros a b Ha Hb Hc Hd. unfold generateMandelbrot.
    destruct (createImageData width height) as [data|e]; [|done].
    unfold putImageData.
    by rewrite (renderRows_viewport width height a b data Ha Hb Hc Hd), Ha, Hb, Hc, Hd. }
  split; [by apply Hsame|].
  intros g' Hrun. rewrite <- Hrun. symmetry.
  unfold generateMandelbrot in Hrun.
  destruct (createImageData width height) as [data|e]; [|done].
  injection Hrun as <-. by apply Hsame.
Qed.

End RenderClaims.

(** ** The script on doubles *)

Section Float64Claims.

Variables width height : nat.

Lemma sentinel_hue (n budget : Z) :
  (colorValue (num:=f64) n budget / lit 360)%num = specHue n budget.
Proof.
  unfold colorValue, specHue. destruct (n =? budget)%Z; [|done].
  vm_compute. reflexivity.
Qed.

(** Multiplying by 360 and dividing by 360 again is kept as the script has
    it: on doubles the two roundings do not always cancel (for 53 iterations
    out of 68 the hue is one unit in the last place below [53 / 68]), while
    in exact arithmetic the hue is the quotient. *)
Lemma hue_rounds_twice :
  specHue (num:=f64) 53 68 <> (lit 53 / lit 68)%num.
Proof. vm_compute. discriminate. Qed.

Lemma hue_exact (n budget : Z) :
  n <> budget -> (specHue (num:=Q) n budget == inject_Z n / inject_Z budget)%Q.
Proof.
  intros Hne. unfold specHue. apply Z.eqb_neq in Hne as ->. simpl.
  unfold Qdiv. generalize (/ inject_Z budget)%Q. intros b. field.
Qed.

(** With the script's budget of 100 the second rounding never shows: for
    every count the colour is that of the plain quotient. *)
Lemma hue_quotient_at_100 (n : Z) :
  0 <= n <= 100 ->
  hslToRgb (num:=f64) (specHue n 100) (lit 1) lit_0_5
  = hslToRgb (quotientHue n 100) (lit 1) lit_0_5.
Proof.
  intros Hn.
  assert (forallb (fun k : nat =>
            bool_decide (hslToRgb (num:=f64) (specHue (Z.of_nat k) 100) (lit 1) lit_0_5
                         = hslToRgb (quotientHue (Z.of_nat k) 100) (lit 1) lit_0_5))
            (seq 0 101) = true) as Hall by (vm_compute; reflexivity).
  rewrite forallb_forall in Hall.
  specialize (Hall (Z.to_nat n) ltac:(apply in_seq; lia)).
  rewrite Z2Nat.id in Hall by lia.
  by apply bool_decide_eq_true_1 in Hall.
Qed.

(** C4.  For every pixel, the bytes written are those of
    [hslToRgb(hue, 1, 0.5)], where [hue] is 0 when the iteration count
    equals [maxIterations] and otherwise [(count / maxIterations) × 360]
    degrees divided by 360, and the alpha byte is 255.  With the script's
    [maxIterations = 100] the colour is also that of the plain quotient
    [count / maxIterations]. *)
Theorem pixel_color_written (g : globals (num:=f64)) (px py : nat) :
  (px < width)%nat -> (py < height)%nat ->
  let n := escapeTime (planeX width g (lit (Z.of_nat px)))
                      (planeY height g (lit (Z.of_nat py))) (maxIterations g) in
  let i := pixelIndex width py px in
  exists g' r gr b,
    generateMandelbrot width height g = Normal g' /\
    hslToRgb (num:=f64) (specHue n (maxIterations g)) (lit 1) lit_0_5 = (r, gr, b) /\
    (maxIterations g = 100 ->
     hslToRgb (num:=f64) (quotientHue n (maxIterations g)) (lit 1) lit_0_5 = (r, gr, b)) /\
    canvasPixels g' !! i = Some (ToUint8Clamp r) /\
    canvasPixels g' !! (i + 1)%nat = Some (ToUint8Clamp gr) /\
    canvasPixels g' !! (i + 2)%nat = Some (ToUint8Clamp b) /\
    canvasPixels g' !! (i + 3)%nat = Some 255.
Proof.
  intros Hx Hy n i. subst i.
  destruct (hslToRgb (num:=f64) (specHue n (maxIterations g)) (lit 1) lit_0_5)
    as [[r gr] b] eqn:Hrgb.
  assert (forall c, (c < 4)%nat -> exists g',
    generateMandelbrot width height g = Normal g' /\
    canvasPixels g' !! (pixelIndex width py px + c)%nat
    = [ToUint8Clamp r; ToUint8Clamp gr; ToUint8Clamp b; 255] !! c) as Hpix.
  { intros c Hc.
    destruct (generateMandelbrot_pixel width height g py px c Hx Hy Hc)
      as (g' & Hrun & _ & _ & _ & _ & _ & Hpix).
    exists g'. split; [done|]. rewrite Hpix.
    unfold pixelBytes, pixelColor. fold n. rewrite sentinel_hue. by rewrite Hrgb. }
  destruct (Hpix 0%nat ltac:(lia)) as (g' & Hrun & H0).
  exists g', r, gr, b. split; [done|]. split; [done|].
  rewrite Nat.add_0_r in H0. split.
  { intros Hm. rewrite <- Hrgb. subst n. rewrite Hm. symmetry.
    apply hue_quotient_at_100. apply escapeLoop_bounds. lia. }
  split; [done|].
  repeat split.
  - destruct (Hpix 1%nat ltac:(lia)) as (g1 & Hrun1 & H1).
    assert (g1 = g') as -> by congruence. exact H1.
  - destruct (Hpix 2%nat ltac:(lia)) as (g1 & Hrun1 & H1).
    assert (g1 = g') as -> by congruence. exact H1.
  - destruct (Hpix 3%nat ltac:(lia)) as (g1 & Hrun1 & H1).
    assert (g1 = g') as -> by congruence. exact H1.
Qed.

(** With no budget the count is 0 and the colour is red, whatever the
    sign of the budget: for a negative one the colour value is
    [0 / maxIterations * 360 = -0]. *)
Lemma nonpositive_budget_color (budget : Z) :
  budget <= 0 -> colorBytes (pixelColor (num:=f64) 0 budget) = [255; 0; 0; 255].
Proof.
  intros Hb. destruct budget as [|p|p]; [by vm_compute|lia|].
  unfold pixelColor, colorValue. simpl Z.eqb.
  change (lit (Z.neg p)) with (Float64.of_Z (Z.neg p)).
  destruct (of_Z_neg p) as [(m & e & ->)| ->]; by vm_compute.
Qed.

Lemma nonpositive_budget_bytes (g : globals (num:=f64)) (py px : nat) :
  maxIterations g <= 0 -> pixelBytes width height g py px = [255; 0; 0; 255].
Proof.
  intros Hm. unfold pixelBytes, escapeTime.
  rewrite escapeLoop_done by lia. by apply nonpositive_budget_color.
Qed.

Lemma nonpositive_budget_canvas (g : globals (num:=f64)) :
  (0 < width)%nat -> (0 < height)%nat -> maxIterations g <= 0 ->
  exists g',
    generateMandelbrot width height g = Normal g' /\
    length (canvasPixels g') = (width * height * 4)%nat /\
    forall px py, (px < width)%nat -> (py < height)%nat ->
      let i := pixelIndex width py px in
      escapeTime (planeX width g (lit (Z.of_nat px)))
                 (planeY height g (lit (Z.of_nat py))) (maxIterations g) = 0 /\
      canvasPixels g' !! i = Some 255 /\
      canvasPixels g' !! (i + 1)%nat = Some 0 /\
      canvasPixels g' !! (i + 2)%nat = Some 0 /\
      canvasPixels g' !! (i + 3)%nat = Some 255.
Proof.
  intros Hw Hh Hm. eexists. split; [by apply generateMandelbrot_runs|].
  split; [simpl; by rewrite renderRows_length, length_replicate|].
  intros px py Hx Hy i. subst i.
  split; [by apply escapeLoop_done|]. simpl.
  rewrite <- (Nat.add_0_r (pixelIndex width py px)) at 1.
  rewrite !renderRows_at by (rewrite ?length_replicate; first [done|lia]).
  by rewrite nonpositive_budget_bytes.
Qed.

(** C1, as the script has it.  [generateMandelbrot] never looks at
    [maxIterations] before it renders: on a canvas that has pixels, any
    [maxIterations <= 0] makes it return normally, with the loop body never
    run and every pixel red, (255, 0, 0), with alpha 255.  The one failure
    is the canvas API's, for a canvas of zero width or height:
    [createImageData] throws before any pixel is computed. *)
Theorem nonpositive_budget_renders (g : globals (num:=f64)) :
  ((width = 0 \/ height = 0)%nat ->
     generateMandelbrot width height g = Throw IndexSizeError) /\
  ((0 < width)%nat -> (0 < height)%nat -> maxIterations g <= 0 ->
     exists g',
       generateMandelbrot width height g = Normal g' /\
       length (canvasPixels g') = (width * height * 4)%nat /\
       forall px py, (px < width)%nat -> (py < height)%nat ->
         let i := pixelIndex width py px in
         escapeTime (planeX width g (lit (Z.of_nat px)))
                    (planeY height g (lit (Z.of_nat py))) (maxIterations g) = 0 /\
         canvasPixels g' !! i = Some 255 /\
         canvasPixels g' !! (i + 1)%nat = Some 0 /\
         canvasPixels g' !! (i + 2)%nat = Some 0 /\
         canvasPixels g' !! (i + 3)%nat = Some 255).
Proof.
  split.
  - intros Hzero. unfold generateMandelbrot, createImageData.
    destruct Hzero as [-> | ->]; [done|].
    by rewrite orb_true_r.
  - apply nonpositive_budget_canvas.
Qed.


End Float64Claims.

(** C5.  [hslToRgb(0, 1, 0.5) = (255, 0, 0)],
    [hslToRgb(1/3, 1, 0.5) = (0, 255, 0)] and
    [hslToRgb(2/3, 1, 0.5) = (0, 0, 255)], computed on doubles. *)
Theorem hslToRgb_primaries :
  hslToRgb (num:=f64) (lit 0) (lit 1) lit_0_5 = (lit 255, lit 0, lit 0) /\
  hslToRgb (num:=f64) (lit 1 / lit 3)%num (lit 1) lit_0_5 = (lit 0, lit 255, lit 0) /\
  hslToRgb (num:=f64) (lit 2 / lit 3)%num (lit 1) lit_0_5 = (lit 0, lit 0, lit 255).
Proof. repeat split; vm_compute; reflexivity. Qed.

(** ** The wheel handler *)

(** In exact arithmetic the recomputed offsets put the same point of the
    plane under the pointer. *)
Lemma pointer_fixed_exact (width height : nat) (g : globals (num:=Q))
    (mouseX mouseY deltaY : Q) :
  let g' := zoomAt width height mouseX mouseY deltaY g in
  (planeX width g' mouseX == planeX width g mouseX)%Q /\
  (planeY height g' mouseY == planeY height g mouseY)%Q.
Proof.
  intros g'. subst g'. unfold planeX, planeY, zoomAt. simpl.
  destruct (negb (Qle_bool 0 deltaY)); split; ring.
Qed.

(** C7, up to rounding.  After a zoom step at the pointer, in either
    direction, the point of the plane under the pointer is the one that was
    there before: exactly so in exact arithmetic, and on doubles (with
    [offsetX] and [offsetY] valid doubles, and the new offset and the new
    coordinate finite) within [2^-52 × (|new coordinate| + |new offset|)] on
    each axis, which is what the two roundings of the recomputation can
    add. *)
Theorem zoom_keeps_pointer (width height : nat)
    (ge : globals (num:=Q)) (pointerX pointerY wheel : Q)
    (g : globals (num:=f64)) (mouseX mouseY deltaY : f64) :
  valid_binary Float64.prec Float64.emax (offsetX g) = true ->
  valid_binary Float64.prec Float64.emax (offsetY g) = true ->
  (let ge' := zoomAt width height pointerX pointerY wheel ge in
   (planeX width ge' pointerX == planeX width ge pointerX)%Q /\
   (planeY height ge' pointerY == planeY height ge pointerY)%Q) /\
  (let g' := zoomAt width height mouseX mouseY deltaY g in
   (forall q1 qo,
      Float64.to_Q (planeX width g' mouseX) = Some q1 ->
      Float64.to_Q (offsetX g') = Some qo ->
      exists q0, Float64.to_Q (planeX width g mouseX) = Some q0 /\
        (Qabs (q1 - q0) <= (1 # 2 ^ 52) * (Qabs q1 + Qabs qo))%Q) /\
   (forall q1 qo,
      Float64.to_Q (planeY height g' mouseY) = Some q1 ->
      Float64.to_Q (offsetY g') = Some qo ->
      exists q0, Float64.to_Q (planeY height g mouseY) = Some q0 /\
        (Qabs (q1 - q0) <= (1 # 2 ^ 52) * (Qabs q1 + Qabs qo))%Q)).
Proof.
  intros Hvx Hvy. split.
  - apply pointer_fixed_exact.
  - by apply pointer_fixed_rounded.
Qed.

(** C9, on doubles.  For every positive normal double [z] from [2^-1021]
    up to [2^1021], a zoom-in step followed by a zoom-out step, and a
    zoom-out step followed by a zoom-in step, both give a finite double
    within [1e-9] of [z], relative to [z]. *)
Theorem zoom_round_trip (z : f64) :
  Float64.midRange z = true ->
  Float64.relClose (1 # 10 ^ 9) (zoomOut (zoomIn z)) z /\
  Float64.relClose (1 # 10 ^ 9) (zoomIn (zoomOut z)) z.
Proof.
  destruct z as [s|s| |[|] m e]; try discriminate. unfold Float64.midRange.
  intros Hr.
  apply andb_true_iff in Hr as [Hr He2%Z.leb_le].
  apply andb_true_iff in Hr as [Hr He1%Z.leb_le].
  apply andb_true_iff in Hr as [Hm1%Z.leb_le Hm2%Z.ltb_lt].
  by apply round_trip_normal.
Qed.

(** ** The script on a few inputs *)

(** The centre of a 100 by 100 canvas in the initial view is the point
    [-0.5 + 0i], which uses the whole budget; the corner is [-2.5 - 2i],
    which escapes at the first step, as does [3 + 3i]. *)
Example centre_pixel :
  planeX (num:=f64) 100 (initial 100 100) (lit 50) = (lit (-5) / lit 10)%num /\
  planeY (num:=f64) 100 (initial 100 100) (lit 50) = lit 0 /\
  escapeTime (num:=f64) (lit (-5) / lit 10)%num (lit 0) 100 = 100.
Proof. repeat split; vm_compute; reflexivity. Qed.

Example corner_pixel :
  escapeTime (num:=f64) (planeX 100 (initial 100 100) (lit 0))
                        (planeY 100 (initial 100 100) (lit 0)) 100 = 1 /\
  escapeTime (num:=f64) (lit 3) (lit 3) 100 = 1.
Proof. split; vm_compute; reflexivity. Qed.

(** A 4 by 3 canvas in the initial view, byte by byte. *)
Example small_canvas :
  generateMandelbrot (num:=f64) 4 3 (initial 4 3)
  = Normal (putImageData
      [255; 15; 0; 255;  255; 15; 0; 255;  255; 15; 0; 255;  255; 15; 0; 255;
       255; 15; 0; 255;  255; 46; 0; 255;  255; 168; 0; 255; 255; 61; 0; 255;
       255; 15; 0; 255;  255; 46; 0; 255;  255; 168; 0; 255; 255; 61; 0; 255]
      (initial 4 3)).
Proof. vm_compute. reflexivity. Qed.

(** * Where the script departs from the specification *)

(** C1 fails: with [maxIterations = 0] and a canvas of one pixel the script
    returns a buffer, one red pixel, and throws nothing. *)
Lemma zero_budget_not_rejected :
  ~ (forall (width height : nat) (g : globals (num:=f64)),
       maxIterations g <= 0 \/ (width = 0)%nat \/ (height = 0)%nat ->
       exists e, generateMandelbrot width height g = Throw e).
Proof.
  intros Hclaim.
  destruct (Hclaim 1%nat 1%nat (Globals 0 (lit 1) (lit (-5) / lit 10)%num (lit 0) []))
    as [e He]; [left; simpl; lia|].
  vm_compute in He. discriminate He.
Qed.

(** C7 fails on doubles: from the script's initial view on an 800 by 600
    canvas, zooming in with the pointer at (303, 303) moves the point under
    the pointer by one unit in the last place. *)
Lemma zoom_moves_pointer_in_binary64 :
  ~ (forall (width height : nat) (g : globals (num:=f64)) (mouseX mouseY deltaY : f64),
       SFltb (lit 0) (zoom g) = true ->
       let g' := zoomAt width height mouseX mouseY deltaY g in
       planeX width g' mouseX = planeX width g mouseX /\
       planeY height g' mouseY = planeY height g mouseY).
Proof.
  intros Hclaim.
  destruct (Hclaim 800%nat 600%nat
              (Globals 100 (lit 1) (lit (-5) / lit 10)%num (lit 0) [])
              (lit 303) (lit 303) (lit (-1))) as [Hx _];
    [vm_compute; reflexivity|].
  vm_compute in Hx. discriminate Hx.
Qed.

(** The two values there: [-0.985] to the nearest double before the step,
    the next double towards minus infinity after it. *)
Lemma zoom_pointer_values :
  planeX (num:=f64) 800 (Globals 100 (lit 1) (lit (-5) / lit 10)%num (lit 0) []) (lit 303)
  = S754_finite true 8872091265919877 (-53) /\
  planeX (num:=f64) 800
    (zoomAt 800 600 (lit 303) (lit 303) (lit (-1))
       (Globals 100 (lit 1) (lit (-5) / lit 10)%num (lit 0) [])) (lit 303)
  = S754_finite true 8872091265919878 (-53).
Proof. split; vm_compute; reflexivity. Qed.

(** C9 fails at the ends of the range.  After 7447 zoom-in steps from the
    initial zoom 1 the zoom is [8937181617691506 × 2^971], about 1.8e308;
    one more step overflows to [Infinity], and dividing [Infinity] by 1.1
    does not bring the zoom back. *)
Lemma zoom_round_trip_overflows :
  ~ (forall z : f64,
       valid_binary Float64.prec Float64.emax z = true ->
       SFltb (lit 0) z = true ->
       Float64.relClose (1 # 10 ^ 9) (zoomOut (zoomIn z)) z /\
       Float64.relClose (1 # 10 ^ 9) (zoomIn (zoomOut z)) z).
Proof.
  intros Hclaim.
  destruct (Hclaim (S754_finite false 8937181617691506 971)) as [Hclose _];
    [vm_compute; reflexivity|vm_compute; reflexivity|].
  assert (zoomOut (zoomIn (num:=f64) (S754_finite false 8937181617691506 971))
          = S754_infinity false) as Hinf by (vm_compute; reflexivity).
  rewrite Hinf in Hclose. exact Hclose.
Qed.

Lemma zoom_reaches_overflow :
  Pos.iter (zoomIn (num:=f64)) (lit 1) 7447 = S754_finite false 8937181617691506 971.
Proof. vm_compute. reflexivity. Qed.

(** Nor does it hold among the subnormals: after 7899 zoom-out steps from
    the initial zoom 1 the zoom is [5 × 2^-1074]; divided by 1.1 it rounds
    to itself, and multiplied by 1.1 it becomes [6 × 2^-1074]. *)
Lemma round_trip_subnormal :
  Pos.iter (zoomOut (num:=f64)) (lit 1) 7899 = S754_finite false 5 (-1074) /\
  zoomIn (zoomOut (num:=f64) (S754_finite false 5 (-1074))) = S754_finite false 6 (-1074).
Proof. split; vm_compute; reflexivity. Qed.

(** * More of the script *)

(** ** The render loops *)

Section RenderMore.

Context {num : Type} `{Number num}.
Variables width height : nat.

Lemma byte_position (j : nat) :
  (j < width * height * 4)%nat ->
  let py := (j / 4 / width)%nat in
  let px := (j / 4 mod width)%nat in
  (px < width)%nat /\ (py < height)%nat /\ (j mod 4 < 4)%nat /\
  j = (pixelIndex width py px + j mod 4)%nat.
Proof.
  intros Hj py px.
  assert (0 < width)%nat as Hw by (destruct width; lia).
  assert (j / 4 < width * height)%nat as Hq
    by (apply Nat.Div0.div_lt_upper_bound; lia).
  split; [apply Nat.mod_upper_bound; lia|].
  split; [apply Nat.Div0.div_lt_upper_bound; lia|].
  split; [apply Nat.mod_upper_bound; lia|].
  unfold pixelIndex. subst py px.
  pose proof (Nat.div_mod_eq (j / 4) width).
  pose proof (Nat.div_mod_eq j 4). lia.
Qed.

(** X1.  The loops write every byte of the buffer: byte [j] of the canvas
    belongs to the pixel in row [j / 4 / width], column [j / 4 mod width],
    and is that pixel's channel [j mod 4]; nothing of the buffer that
    [createImageData] returned is left. *)
Theorem render_covers_canvas (g : globals) (j : nat) :
  (j < width * height * 4)%nat ->
  exists g',
    generateMandelbrot width height g = Normal g' /\
    length (canvasPixels g') = (width * height * 4)%nat /\
    canvasPixels g' !! j
    = pixelBytes width height g (j / 4 / width) (j / 4 mod width) !! (j mod 4)%nat.
Proof.
  intros Hj. destruct (byte_position j Hj) as (Hx & Hy & Hc & Heq).
  destruct (generateMandelbrot_pixel width height g _ _ _ Hx Hy Hc)
    as (g' & Hrun & _ & _ & _ & _ & Hlen & Hpix).
  exists g'. split; [done|]. split; [done|].
  rewrite <- Hpix. by rewrite <- Heq.
Qed.

(** What the canvas showed before plays no part: from any two buffers of
    the canvas's size the loops produce the same bytes. *)
Lemma renderRows_overwrites (g : globals) (d1 d2 : list Z) :
  length d1 = (width * height * 4)%nat -> length d2 = (width * height * 4)%nat ->
  renderRows width height g d1 = renderRows width height g d2.
Proof.
  intros H1 H2. apply list_eq. intros j.
  destruct (decide (j < width * height * 4)%nat) as [Hj|Hj].
  - destruct (byte_position j Hj) as (Hx & Hy & Hc & Heq).
    rewrite Heq. by rewrite !renderRows_at.
  - rewrite !lookup_ge_None_2; [done| |]; rewrite renderRows_length; lia.
Qed.

End RenderMore.

(** ** The escape loop and the budget *)

Section EscapeMore.

Context {num : Type} `{Number num}.
Local Open Scope num_scope.

Lemma escapeLoop_truncates (x0 y0 : num) (b b' : Z) x y iteration :
  (iteration <= b <= b')%Z ->
  escapeLoop x0 y0 b x y iteration = Z.min b (escapeLoop x0 y0 b' x y iteration).
Proof.
  funelim (escapeLoop x0 y0 b' x y iteration); intros Hb.
  - pose proof Hguard as Hg. unfold loopGuard in Hg.
    apply andb_true_iff in Hg as [Hin Hlt%Z.ltb_lt].
    rewrite (escapeLoop_eq x0 y0 b). unfold loopGuard. rewrite Hin. simpl.
    destruct (Z.ltb_spec iteration b) as [Hlt'|Hge].
    + apply H0. lia.
    + pose proof (escapeLoop_bounds x0 y0 maxIter (x * x - y * y + x0)
                    (lit 2 * x * y + y0) (iteration + 1)%Z ltac:(lia)).
      lia.
  - pose proof e as Hg. unfold loopGuard in Hg.
    rewrite (escapeLoop_eq x0 y0 b). unfold loopGuard.
    apply andb_false_iff in Hg as [Hout|Hge%Z.ltb_ge].
    + rewrite Hout. simpl. lia.
    + replace (iteration <? b)%Z with false by (symmetry; apply Z.ltb_ge; lia).
      rewrite andb_false_r. lia.
Qed.

(** X3.  A smaller budget only cuts the count short: for budgets
    [0 <= b <= b'] the count under [b] is the smaller of [b] and the
    count under [b'].  So a point that escapes within [b] steps has the
    same count under every larger budget, and raising [maxIterations]
    never lowers a count. *)
Theorem escape_budget_truncates (x0 y0 : num) (b b' : Z) :
  (0 <= b <= b')%Z ->
  escapeTime x0 y0 b = Z.min b (escapeTime x0 y0 b').
Proof. intros Hb. by apply escapeLoop_truncates. Qed.

End EscapeMore.

(** ** Bytes and colours on doubles *)

Section Float64More.

Variables width height : nat.
Local Open Scope num_scope.

Lemma to_uint8_clamp_range (x : f64) : (0 <= Float64.to_uint8_clamp x <= 255)%Z.
Proof.
  destruct x as [s|[|]| |[|] m e]; unfold Float64.to_uint8_clamp; try lia.
  destruct (Z.leb_spec 0 e).
  - assert (0 <= Z.pos m * 2 ^ e)%Z by (apply Z.mul_nonneg_nonneg; [lia|apply Z.pow_nonneg; lia]).
    lia.
  - cbv zeta.
    assert (0 < 2 ^ (- e))%Z by (apply Z.pow_pos_nonneg; lia).
    assert (0 <= Z.pos m / 2 ^ (- e))%Z by (apply Z.div_pos; lia).
    destruct (2 * (Z.pos m mod 2 ^ (- e)) ?= 2 ^ (- e))%Z; [|lia|lia].
    destruct (Z.even _); lia.
Qed.

Lemma pixelBytes_range (g : globals (num:=f64)) (py px c : nat) (v : Z) :
  pixelBytes width height g py px !! c = Some v ->
  (0 <= v <= 255)%Z /\ (c = 3%nat -> v = 255%Z).
Proof.
  unfold pixelBytes, colorBytes. destruct (pixelColor _ _) as [[r gr] b].
  destruct c as [|[|[|[|c]]]]; simpl; intros Hv; try done;
    injection Hv as <-; (split; [|done]);
    first [apply to_uint8_clamp_range|lia].
Qed.

(** X2.  Every byte that a render leaves in the canvas lies in [0, 255], and
    every fourth one, the alpha channel, is 255: the picture is opaque
    everywhere. *)
Theorem canvas_bytes_opaque (g g' : globals (num:=f64)) (j : nat) (v : Z) :
  generateMandelbrot width height g = Normal g' ->
  canvasPixels g' !! j = Some v ->
  (0 <= v <= 255)%Z /\ ((j mod 4 = 3)%nat -> v = 255%Z).
Proof.
  intros Hrun Hv.
  assert (j < width * height * 4)%nat as Hj.
  { apply lookup_lt_Some in Hv. unfold generateMandelbrot in Hrun.
    destruct (createImageData width height) as [data|] eqn:Hd; [|done].
    injection Hrun as <-. simpl in Hv. rewrite renderRows_length in Hv.
    unfold createImageData in Hd. destruct (_ || _); [done|].
    injection Hd as <-. by rewrite length_replicate in Hv. }
  destruct (byte_position width height j Hj) as (Hx & Hy & Hc & Heq).
  destruct (generateMandelbrot_pixel width height g _ _ _ Hx Hy Hc)
    as (g'' & Hrun' & _ & _ & _ & _ & _ & Hpix).
  rewrite Hrun in Hrun'. injection Hrun' as <-.
  rewrite Heq, Hpix in Hv. by apply pixelBytes_range in Hv.
Qed.

(** *** The first step of the loop *)

Lemma first_square (x : f64) :
  (lit 0 * lit 0 - lit 0 * lit 0 + x) * (lit 0 * lit 0 - lit 0 * lit 0 + x) = x * x.
Proof. by destruct x as [[|]|[|]| |[|] m e]. Qed.

Lemma first_square_y (y : f64) :
  (lit 2 * lit 0 * lit 0 + y) * (lit 2 * lit 0 * lit 0 + y) = y * y.
Proof. by destruct y as [[|]|[|]| |[|] m e]. Qed.

Lemma escapeTime_first (x0 y0 : f64) (b : Z) :
  (1 <= b)%Z ->
  escapeTime x0 y0 b
  = if (x0 * x0 + y0 * y0 <=? lit 4) && (1 <? b)%Z
    then escapeLoop x0 y0 b
           ((lit 0 * lit 0 - lit 0 * lit 0 + x0) * (lit 0 * lit 0 - lit 0 * lit 0 + x0)
            - (lit 2 * lit 0 * lit 0 + y0) * (lit 2 * lit 0 * lit 0 + y0) + x0)
           (lit 2 * (lit 0 * lit 0 - lit 0 * lit 0 + x0) * (lit 2 * lit 0 * lit 0 + y0) + y0)
           2
    else 1%Z.
Proof.
  intros Hb. unfold escapeTime. rewrite escapeLoop_eq. unfold loopGuard.
  replace (0 <? b)%Z with true by (symmetry; apply Z.ltb_lt; lia).
  replace (lit 0 * lit 0 + lit 0 * lit 0 <=? lit 4) with true by (by vm_compute).
  simpl andb. cbv iota. rewrite escapeLoop_eq. unfold loopGuard.
  by rewrite first_square, first_square_y.
Qed.

Lemma escape_count_positive (x0 y0 : f64) (b : Z) :
  (1 <= b)%Z -> (1 <= escapeTime x0 y0 b <= b)%Z.
Proof.
  intros Hb. split; [|apply (escapeLoop_bounds x0 y0 b); lia].
  rewrite escapeTime_first by done.
  destruct (_ && _); [|lia].
  match goal with |- context [escapeLoop ?a1 ?a2 ?a3 ?x ?y 2%Z] =>
    destruct (Z_lt_le_dec b 2) as [Hlt|Hge];
      [rewrite escapeLoop_done by lia; lia
      |pose proof (escapeLoop_bounds a1 a2 a3 x y 2%Z ltac:(lia)); lia] end.
Qed.

(** X4.  With a budget of at least 1 the loop always takes its first step,
    from [z = 0], so no count is below 1; and with a budget of at least 2
    the count is 1 exactly for the points that fail the test
    [x0² + y0² <= 4] themselves: those outside the closed disc of radius
    2, and those with a NaN coordinate. *)
Theorem escape_first_step (x0 y0 : f64) (b : Z) :
  (1 <= b)%Z ->
  (1 <= escapeTime x0 y0 b <= b)%Z /\
  ((2 <= b)%Z ->
   (escapeTime x0 y0 b = 1%Z <-> (x0 * x0 + y0 * y0 <=? lit 4) = false)).
Proof.
  intros Hb. rewrite escapeTime_first by done.
  destruct (x0 * x0 + y0 * y0 <=? lit 4); simpl.
  - destruct (Z.ltb_spec 1 b) as [Hlt|Hge].
    + match goal with |- context [escapeLoop ?a1 ?a2 ?a3 ?x ?y 2%Z] =>
        pose proof (escapeLoop_bounds a1 a2 a3 x y 2%Z ltac:(lia)) as Hr end.
      split; [lia|]. intros _. split; [lia|done].
    + split; [lia|]. lia.
  - split; [lia|]. done.
Qed.

(** *** The colours of the budget 100 *)

Lemma palette_NoDup :
  NoDup (map (fun k : nat => colorBytes (pixelColor (num:=f64) (Z.of_nat k) 100)) (seq 1 100)).
Proof.
  apply (bool_decide_eq_true_1 _). vm_compute. reflexivity.
Qed.

Lemma palette_injective n n' :
  (1 <= n <= 100)%Z -> (1 <= n' <= 100)%Z ->
  colorBytes (pixelColor (num:=f64) n 100) = colorBytes (pixelColor (num:=f64) n' 100) ->
  n = n'.
Proof.
  intros Hn Hn' Heq.
  pose proof palette_NoDup as Hnd. rewrite NoDup_alt in Hnd.
  assert (forall k : Z, (1 <= k <= 100)%Z ->
            map (fun k : nat => colorBytes (pixelColor (num:=f64) (Z.of_nat k) 100))
              (seq 1 100) !! Z.to_nat (k - 1)
            = Some (colorBytes (pixelColor (num:=f64) k 100))) as Hat.
  { intros k Hk.
    change (map ?f ?l) with (f <$> l).
    rewrite list_lookup_fmap, lookup_seq_lt by lia.
    replace (1 + Z.to_nat (k - 1))%nat with (Z.to_nat k) by lia.
    cbn [fmap option_fmap option_map]. by rewrite Z2Nat.id by lia. }
  pose proof (Hat n Hn) as H1. rewrite Heq in H1.
  pose proof (Hnd _ _ _ H1 (Hat n' Hn')). lia.
Qed.

(** X6.  With the script's budget of 100, the hundred possible counts 1 to 100
    get a hundred different colours, so a pixel's colour tells its count;
    red, (255, 0, 0), is the colour of the count 100 alone, that is, of the
    points that never left the disc. *)
Theorem palette_tells_count (n n' : Z) :
  (1 <= n <= 100)%Z -> (1 <= n' <= 100)%Z ->
  (colorBytes (pixelColor (num:=f64) n 100) = colorBytes (pixelColor (num:=f64) n' 100)
   <-> n = n') /\
  (colorBytes (pixelColor (num:=f64) n 100) = [255; 0; 0; 255]%Z <-> n = 100%Z).
Proof.
  intros Hn Hn'. split.
  - split; [by apply palette_injective|by intros ->].
  - change [255; 0; 0; 255]%Z with (colorBytes (pixelColor (num:=f64) 100 100)).
    split; [apply palette_injective; lia|by intros ->].
Qed.

End Float64More.

(** ** Mirror symmetry of the counts *)

Section Mirror.

Local Abbreviation prec := 53.
Local Abbreviation emax := 1024.
Local Open Scope num_scope.

Lemma binary_round_aux_opp (s : bool) (m e : Z) (l : location) :
  binary_round_aux prec emax (negb s) m e l = SFopp (binary_round_aux prec emax s m e l).
Proof.
  unfold binary_round_aux.
  destruct (shr_fexp prec emax m e l) as [mrs1 e1].
  destruct (shr_fexp prec emax _ e1 loc_Exact) as [mrs2 e2].
  destruct (shr_m mrs2); try done. by destruct (e2 <=? _)%Z.
Qed.

Lemma binary_normalize_opp (m e : Z) :
  mirrored (binary_normalize prec emax m e false) (binary_normalize prec emax (- m) e false).
Proof.
  destruct m as [|p|p]; simpl.
  - by right.
  - left. unfold binary_round. destruct (shl_align _ _ _) as [mz ez].
    apply (binary_round_aux_opp false).
  - left. unfold binary_round. destruct (shl_align _ _ _) as [mz ez].
    apply (binary_round_aux_opp true).
Qed.

Lemma mul_opp_r (x y : f64) : x * SFopp y = SFopp (x * y).
Proof.
  destruct x as [sx|sx| |sx mx ex], y as [sy|sy| |sy my ey]; simpl; try done;
    try (by destruct sx, sy).
  rewrite <- binary_round_aux_opp. by destruct sx, sy.
Qed.

Lemma mul_mirrored (x y y' : f64) : mirrored y y' -> mirrored (x * y) (x * y').
Proof.
  intros [-> | Hz].
  - left. apply mul_opp_r.
  - destruct y as [sy| | |], y' as [sy'| | |]; try done.
    destruct x as [sx|sx| |sx mx ex]; simpl; first [by right|by left].
Qed.

Lemma square_mirrored (y y' : f64) : mirrored y y' -> y' * y' = y * y.
Proof.
  intros [-> | Hz].
  - destruct y as [[|]|[|]| |[|] my ey]; done.
  - destruct y as [[|]| | |], y' as [[|]| | |]; done.
Qed.

Lemma add_mirrored (a a' b : f64) : mirrored a a' -> mirrored (a + b) (a' + SFopp b).
Proof.
  intros [-> | Hz].
  - destruct a as [sa|sa| |sa ma ea], b as [sb|sb| |sb mb eb];
      try (by left); try (by destruct sa, sb; first [by left|by right]).
    simpl.
    replace (cond_Zopp (negb sa) (Z.pos (shl_align ma ea (Z.min ea eb)).1)
             + cond_Zopp (negb sb) (Z.pos (shl_align mb eb (Z.min ea eb)).1))%Z
      with (- (cond_Zopp sa (Z.pos (shl_align ma ea (Z.min ea eb)).1)
               + cond_Zopp sb (Z.pos (shl_align mb eb (Z.min ea eb)).1)))%Z
      by (destruct sa, sb; simpl; lia).
    apply binary_normalize_opp.
  - destruct a as [sa| | |], a' as [sa'| | |]; try done.
    destruct b as [sb|sb| |sb mb eb]; simpl;
      try (by left); by destruct sa, sa', sb; first [by left|by right].
Qed.

Lemma escapeLoop_mirrored (x0 y0 : f64) (b : Z) (x y y' : f64) (iteration : Z) :
  mirrored y y' ->
  escapeLoop x0 (SFopp y0) b x y' iteration = escapeLoop x0 y0 b x y iteration.
Proof.
  remember (Z.to_nat (b - iteration)) as k eqn:Hk.
  revert x y y' iteration Hk. induction k as [k IH] using lt_wf_ind.
  intros x y y' iteration Hk Hy.
  rewrite (escapeLoop_eq x0 y0), (escapeLoop_eq x0 (SFopp y0)). unfold loopGuard.
  rewrite (square_mirrored y y' Hy).
  destruct (x * x + y * y <=? lit 4); [|done].
  destruct (Z.ltb_spec iteration b) as [Hlt|Hge]; [|done]. simpl.
  apply (IH (Z.to_nat (b - (iteration + 1)))); [lia|done|].
  apply add_mirrored, mul_mirrored, Hy.
Qed.

(** X5.  The counts are symmetric about the real axis, exactly: a point and
    its mirror image [(x0, -y0)] get the same iteration count under every
    budget, whatever the doubles [x0] and [y0] are.  Rounding does not
    break the symmetry, because it treats the two signs alike. *)
Theorem escape_mirror (x0 y0 : f64) (b : Z) :
  escapeTime x0 (SFopp y0) b = escapeTime x0 y0 b.
Proof. apply escapeLoop_mirrored. by right. Qed.

End Mirror.

(** ** hslToRgb in exact arithmetic *)

Section HslExact.

Local Open Scope Q_scope.






End HslExact.

(** ** The zoom never leaves the positive doubles *)

Section ZoomRange.

Local Abbreviation prec := 53.
Local Abbreviation emax := 1024.
Local Abbreviation M11 := Float64.mantissa_1_1.

Lemma fexp_max (x : Z) : fexp prec emax x = Z.max (x - 53) (-1074).
Proof. reflexivity. Qed.

Lemma pow2_le_1 (k : Z) : k <= 0 -> 2 ^ k <= 1.
Proof.
  intros Hk. destruct (Z.eq_dec k 0) as [->|Hne]; [simpl; lia|].
  rewrite Z.pow_neg_r by lia. lia.
Qed.

Lemma Zdigits2_le (p : positive) (d : Z) : Zpos p < 2 ^ d -> 0 <= d -> Zdigits2 (Zpos p) <= d.
Proof.
  intros Hp Hd. pose proof (Zdigits2_bounds p) as [Hlo _].
  destruct (Z_lt_le_dec d (Zdigits2 (Zpos p))) as [Hlt|]; [|lia].
  assert (2 ^ d <= 2 ^ (Zdigits2 (Zpos p) - 1)) by (apply Z.pow_le_mono_r; lia).
  lia.
Qed.

(** Rounding a positive mantissa that is worth at least the least
    subnormal gives a positive double or an infinity, never zero. *)
Lemma binary_round_aux_positive (s : bool) (p : positive) (e : Z) (l : location) :
  2 ^ (-1074 - e) <= Zpos p ->
  binary_round_aux prec emax s (Zpos p) e l = S754_infinity s \/
  exists (m' : positive) (e' : Z),
    binary_round_aux prec emax s (Zpos p) e l = S754_finite s m' e' /\
    -1074 <= e' /\ Zpos m' < 2 ^ 53.
Proof.
  intros Hp. pose proof (Zdigits2_bounds p) as Hd.
  destruct (shr_fexp_m (Zpos p) e l ltac:(lia)) as [Hm1 He1].
  remember (Zdigits2 (Zpos p)) as d eqn:Hdeq.
  rewrite fexp_max in Hm1, He1.
  set (n := Z.max 0 (Z.max (d + e - 53) (-1074) - e)) in *.
  assert (1 <= d).
  { destruct (Z_lt_le_dec d 1) as [Hlt|]; [|lia].
    rewrite (Z.pow_neg_r 2 (d - 1)) in Hd by lia.
    assert (2 ^ d <= 1) by (apply pow2_le_1; lia). lia. }
  assert (0 <= n /\ d - 53 <= n /\ -1074 - e <= n) as Hn by lia.
  assert (0 < 2 ^ n) as Hpow by (apply Z.pow_pos_nonneg; lia).
  assert (2 ^ n <= Zpos p) as Hle.
  { destruct (Z.eq_dec n 0) as [->|]; [simpl; lia|].
    destruct (Z.eq_dec n (d - 53)) as [->|].
    - assert (2 ^ (d - 53) <= 2 ^ (d - 1)) by (apply Z.pow_le_mono_r; lia). lia.
    - replace n with (-1074 - e) by lia. exact Hp. }
  assert (Zpos p < 2 ^ 53 * 2 ^ n) as Hlt.
  { rewrite <- Z.pow_add_r by lia.
    assert (2 ^ d <= 2 ^ (53 + n)) by (apply Z.pow_le_mono_r; lia). lia. }
  unfold binary_round_aux.
  destruct (shr_fexp prec emax (Zpos p) e l) as [mrs1 e1]. cbn [fst snd] in Hm1, He1.
  set (m1 := shr_m mrs1) in *.
  assert (1 <= m1 < 2 ^ 53) as Hm1b.
  { rewrite Hm1. split.
    - apply Z.div_le_lower_bound; lia.
    - apply Z.div_lt_upper_bound; lia. }
  pose proof (round_nearest_even_bounds m1 (loc_of_shr_record mrs1)) as Hm2.
  set (m2 := round_nearest_even m1 (loc_of_shr_record mrs1)) in *.
  destruct m2 as [|q2|q2] eqn:Hq2; try lia.
  destruct (shr_fexp_m (Zpos q2) e1 loc_Exact ltac:(lia)) as [Hm3 He3].
  destruct (shr_fexp prec emax (Zpos q2) e1 loc_Exact) as [mrs2 e2]. cbn [fst snd] in Hm3, He3.
  rewrite fexp_max in Hm3, He3.
  destruct (Z_lt_le_dec (Zpos q2) (2 ^ 53)) as [Hlt2|Hge2].
  - pose proof (Zdigits2_le q2 53 Hlt2 ltac:(lia)) as Hd2.
    replace (Z.max 0 (Z.max (Zdigits2 (Z.pos q2) + e1 - 53) (-1074) - e1)) with 0
      in Hm3, He3 by lia.
    rewrite Z.pow_0_r, Z.div_1_r in Hm3. rewrite Hm3.
    destruct (e2 <=? 1024 - 53); [right|by left].
    exists q2, e2. split; [done|]. lia.
  - assert (Zpos q2 = 2 ^ 53) as Hq by lia.
    rewrite (Zdigits2_unique q2 54) in Hm3, He3
      by (change (54 - 1) with 53; rewrite Hq; lia).
    replace (Z.max 0 (Z.max (54 + e1 - 53) (-1074) - e1)) with 1 in Hm3, He3 by lia.
    rewrite Hq in Hm3. change (2 ^ 53 / 2 ^ 1) with (Zpos (2 ^ 52)%positive) in Hm3.
    rewrite Hm3.
    destruct (e2 <=? 1024 - 53); [right|by left].
    exists (2 ^ 52)%positive, e2. split; [done|].
    change (Zpos (2 ^ 52)%positive) with (2 ^ 52). lia.
Qed.

Lemma zoomIn_positive (z : f64) : positiveDouble z -> positiveDouble (zoomIn z).
Proof.
  destruct z as [s|[|]| |[|] m e]; cbn [positiveDouble];
    [intros []|intros []|intros _; by vm_compute|intros []|intros []|].
  intros [He Hm]. unfold zoomIn. rewrite lit_1_1_double.
  change (n_mul (S754_finite false m e) (S754_finite false M11 (-52)))
    with (binary_round_aux prec emax false (Zpos (m * M11)) (e + -52) loc_Exact).
  destruct (binary_round_aux_positive false (m * M11) (e + -52) loc_Exact)
    as [-> | (m' & e' & -> & He' & Hm')]; [|done|done].
  assert (2 ^ (-1074 - (e + -52)) <= 2 ^ 52) by (apply Z.pow_le_mono_r; lia).
  rewrite Pos2Z.inj_mul. unfold Float64.mantissa_1_1. nia.
Qed.

Lemma zoomOut_positive (z : f64) : positiveDouble z -> positiveDouble (zoomOut z).
Proof.
  destruct z as [s|[|]| |[|] m e]; cbn [positiveDouble];
    [intros []|intros []|intros _; by vm_compute|intros []|intros []|].
  intros [He Hm]. unfold zoomOut. rewrite lit_1_1_double.
  change (n_div (S754_finite false m e) (S754_finite false M11 (-52)))
    with (let '(mz, ez, lz) := SFdiv_core_binary prec emax (Zpos m) e (Zpos M11) (-52) in
          binary_round_aux prec emax false mz ez lz).
  unfold SFdiv_core_binary.
  change (Zdigits2 (Zpos M11)) with 53.
  pose proof (Zdigits2_bounds m) as Hd.
  pose proof (Zdigits2_le m 53 Hm ltac:(lia)) as Hd53.
  remember (Zdigits2 (Zpos m)) as d eqn:Hdeq.
  assert (1 <= d).
  { destruct (Z_lt_le_dec d 1) as [Hlt|]; [|lia].
    rewrite (Z.pow_neg_r 2 (d - 1)) in Hd by lia.
    assert (2 ^ d <= 1) by (apply pow2_le_1; lia). lia. }
  rewrite fexp_max.
  set (e' := Z.min (Z.max (d + e - (53 + -52) - 53) (-1074)) (e - -52)).
  assert (-1074 <= e' /\ e' <= e /\
          (e' = d + e - 54 \/ e' = -1074)) as (He'1 & He'2 & He'3) by lia.
  set (sh := e - -52 - e').
  assert (52 <= sh) as Hsh by lia.
  destruct sh as [|psh|psh] eqn:Hsheq; try lia.
  rewrite Z.shiftl_mul_pow2 by lia. rewrite <- Hsheq.
  assert (0 < 2 ^ sh) as Hpow by (apply Z.pow_pos_nonneg; lia).
  assert (2 ^ 52 <= 2 ^ sh) as Hpow52 by (apply Z.pow_le_mono_r; lia).
  pose proof (Z_div_mod (Zpos m * 2 ^ sh) (Zpos M11) ltac:(lia)) as Hdiv.
  destruct (Z.div_eucl (Zpos m * 2 ^ sh) (Zpos M11)) as [q r].
  destruct Hdiv as [Hq Hr].
  assert (0 <= q) as Hq0 by (unfold Float64.mantissa_1_1 in *; nia).
  destruct q as [|pq|pq]; try lia.
  - (* the quotient is below one unit of the least subnormal *)
    assert (2 ^ 52 <= r) as Hr52 by nia.
    assert (e' = -1074) as ->.
    { destruct He'3 as [Heq|]; [|done]. exfalso.
      assert (sh = 106 - d) by lia.
      assert (2 ^ (d - 1) * 2 ^ sh = 2 ^ 105)
        by (rewrite <- Z.pow_add_r by lia; f_equal; lia).
      unfold Float64.mantissa_1_1 in *. nia. }
    unfold new_location. change (Z.even (Zpos M11)) with true. cbv iota.
    unfold new_location_even.
    replace (r =? 0) with false by (symmetry; apply Z.eqb_neq; lia).
    replace (2 * r ?= Zpos M11) with Gt
      by (symmetry; apply Z.compare_gt_iff; unfold Float64.mantissa_1_1 in *; lia).
    vm_compute. split; [discriminate|reflexivity].
  - destruct (binary_round_aux_positive false pq e' (new_location (Zpos M11) r))
      as [-> | (m' & e'' & -> & He'' & Hm')]; [|done|done].
    assert (2 ^ (-1074 - e') <= 1) by (apply pow2_le_1; lia). lia.
Qed.

Lemma positiveDouble_gt_0 (z : f64) : positiveDouble z -> n_lt (lit 0) z = true.
Proof. by destruct z as [[|]|[|]| |[|] m e]. Qed.

End ZoomRange.

(** ** The direction of a zoom step *)

Section ZoomDirection.

Local Abbreviation M11 := Float64.mantissa_1_1.

Lemma SFltb_positive (m m' : positive) (e e' : Z) :
  e < e' \/ (e = e' /\ Zpos m < Zpos m') ->
  SFltb (S754_finite false m e) (S754_finite false m' e') = true.
Proof.
  intros Hlt. unfold SFltb, SFcompare.
  destruct Hlt as [Hlt|[-> Hlt]].
  - by apply Z.compare_lt_iff in Hlt as ->.
  - rewrite Z.compare_refl.
    change (Pos.compare_cont Eq m m') with (Zpos m ?= Zpos m').
    by apply Z.compare_lt_iff in Hlt as ->.
Qed.

(** X17.  On the normal doubles of the middle range every wheel step moves the
    zoom the way it should: a zoom-in step gives a strictly larger zoom
    and a zoom-out step a strictly smaller one. *)
Theorem zoom_step_direction (z : f64) :
  Float64.midRange z = true ->
  n_lt z (zoomIn z) = true /\ n_lt (zoomOut z) z = true.
Proof.
  destruct z as [s|s| |[|] m e]; try discriminate. unfold Float64.midRange.
  intros Hr.
  apply andb_true_iff in Hr as [Hr He2%Z.leb_le].
  apply andb_true_iff in Hr as [Hr He1%Z.leb_le].
  apply andb_true_iff in Hr as [Hm1%Z.leb_le Hm2%Z.ltb_lt].
  split.
  - destruct (zoomIn_normal m e ltac:(lia) ltac:(lia))
      as (m1 & e1 & -> & He & Hmb & Hv).
    apply SFltb_positive.
    destruct (Z.eq_dec e1 e) as [->|Hne]; [right|left; lia].
    split; [done|].
    replace (e - e + 52) with 52 in Hv by lia.
    unfold Float64.mantissa_1_1 in Hv. lia.
  - destruct (zoomOut_normal m e ltac:(lia) ltac:(lia))
      as (m1 & e1 & q & -> & He & Hmb & Hq & Hv).
    apply SFltb_positive.
    unfold Float64.mantissa_1_1 in Hq.
    destruct (Z.eq_dec e1 (e + 1)) as [->|Hne1].
    { exfalso. replace (e + 1 - e + 1) with 2 in Hv by lia.
      change (2 ^ 2) with 4 in Hv. lia. }
    destruct (Z.eq_dec e1 e) as [->|Hne]; [right|left; lia].
    split; [done|].
    replace (e - e + 1) with 1 in Hv by lia. change (2 ^ 1) with 2 in Hv.
    lia.
Qed.

End ZoomDirection.

(** ** Sessions *)

Section Sessions.

Variables width height : nat.

Local Abbreviation blank := (replicate (width * height * 4) 0).
Local Abbreviation draw := (redraw (num:=f64) width height).
Local Abbreviation on := (handle width height).

Local Abbreviation synced := (shown width height).
Local Abbreviation kept := (steady width height).

Lemma redraw_runs (g : globals (num:=f64)) :
  (0 < width)%nat -> (0 < height)%nat ->
  draw g = (putImageData (renderRows width height g blank) g, None).
Proof.
  intros Hw Hh. unfold redraw. by rewrite generateMandelbrot_runs.
Qed.

Lemma redraw_fails (g : globals (num:=f64)) :
  (width = 0 \/ height = 0)%nat -> draw g = (g, Some IndexSizeError).
Proof.
  intros Hz. unfold redraw, generateMandelbrot, createImageData.
  destruct Hz as [-> | ->]; [done|]. by rewrite orb_true_r.
Qed.

Lemma redraw_view (g : globals (num:=f64)) :
  maxIterations (draw g).1 = maxIterations g /\
  zoom (draw g).1 = zoom g /\
  offsetX (draw g).1 = offsetX g /\
  offsetY (draw g).1 = offsetY g.
Proof.
  unfold redraw. by destruct (generateMandelbrot width height g) as [g'|e] eqn:Hg;
    [unfold generateMandelbrot in Hg; destruct (createImageData width height);
     [injection Hg as <-|]|].
Qed.

Lemma redraw_shown (g : globals (num:=f64)) :
  (0 < width)%nat -> (0 < height)%nat -> synced (draw g).1.
Proof.
  intros Hw Hh. rewrite redraw_runs by done. unfold shown. simpl.
  by apply renderRows_viewport.
Qed.

Lemma load_steady : kept (load width height).1.
Proof.
  unfold load. destruct (draw (initial width height)) as [g r] eqn:Hd.
  pose proof (redraw_view (initial width height)) as (Hm & Hz & _).
  rewrite Hd in Hm, Hz. simpl in Hm, Hz. split; simpl.
  - done.
  - rewrite Hz. by vm_compute.
  - done.
  - intros Hw Hh. pose proof (redraw_shown (initial width height) Hw Hh) as Hs.
    by rewrite Hd in Hs.
Qed.

Lemma handle_steady (ev : event) (p : page) : kept p -> kept (on ev p).1.
Proof.
  intros [Hb Hz Hs Hv]. destruct ev as [rect e|x y|x y| |]; simpl.
  - unfold wheelHandler.
    match goal with |- context [draw ?g] =>
      pose proof (redraw_view g) as (Hm & Hzm & _);
      pose proof (redraw_shown g) as Hsh;
      destruct (draw g) as [g' r] end.
    unfold zoomAt in Hm, Hzm. cbn [maxIterations zoom fst] in *. split; cbn [view isDragging startX startY fst].
    + congruence.
    + rewrite Hzm. destruct (n_lt _ _); [by apply zoomIn_positive|by apply zoomOut_positive].
    + exact Hs.
    + exact Hsh.
  - split; simpl; [done|done| |done]. intros _. split; eauto.
  - unfold mousemoveHandler. destruct (isDragging p) eqn:Hd;
      [|simpl; split; [done|done|by rewrite Hd|done]].
    match goal with |- context [draw ?g] =>
      pose proof (redraw_view g) as (Hm & Hzm & _);
      pose proof (redraw_shown g) as Hsh;
      destruct (draw g) as [g' r] end.
    unfold panBy in Hm, Hzm. cbn [maxIterations zoom fst] in *. split; cbn [view isDragging startX startY fst].
    + congruence.
    + by rewrite Hzm.
    + intros _. split; eauto.
    + exact Hsh.
  - split; simpl; [done|done|done|done].
  - split; simpl; [done|done|done|done].
Qed.

Lemma run_steady (evs : list event) (p : page) :
  kept p -> kept (run width height evs p).1.
Proof.
  revert p. induction evs as [|ev evs IH]; intros p Hp; simpl; [done|].
  pose proof (handle_steady ev p Hp) as Hp'.
  destruct (on ev p) as [p' r]. simpl in Hp'.
  specialize (IH p' Hp'). by destruct (run width height evs p') as [p'' rs].
Qed.

Lemma session_steady (evs : list event) : kept (session width height evs).1.
Proof.
  unfold session. pose proof load_steady as Hl.
  destruct (load width height) as [p r]. simpl in Hl.
  pose proof (run_steady evs p Hl) as Hr.
  by destruct (run width height evs p) as [p' rs].
Qed.

Lemma handle_quiet (ev : event) (p : page) :
  (0 < width)%nat -> (0 < height)%nat -> (on ev p).2 = None.
Proof.
  intros Hw Hh. destruct ev as [rect e|x y|x y| |]; simpl; try done.
  - unfold wheelHandler. by rewrite redraw_runs.
  - unfold mousemoveHandler. destruct (isDragging p); [|done].
    by rewrite redraw_runs.
Qed.

Lemma run_quiet (evs : list event) (p : page) :
  (0 < width)%nat -> (0 < height)%nat -> (run width height evs p).2 = [].
Proof.
  intros Hw Hh. revert p. induction evs as [|ev evs IH]; intros p; simpl; [done|].
  pose proof (handle_quiet ev p Hw Hh) as Hq.
  destruct (on ev p) as [p' r]. simpl in Hq. subst r.
  specialize (IH p'). by destruct (run width height evs p') as [p'' rs].
Qed.

(** X8.  On a canvas that has pixels no handler ever throws: the script loads
    and every session of wheel and mouse events runs to its end with no
    exception raised. *)
Theorem session_raises_nothing (evs : list event) :
  (0 < width)%nat -> (0 < height)%nat ->
  (session width height evs).2 = [].
Proof.
  intros Hw Hh. unfold session.
  assert ((load width height).2 = None) as Hl
    by (unfold load; by rewrite redraw_runs).
  destruct (load width height) as [p r]. simpl in Hl. subst r.
  pose proof (run_quiet evs p Hw Hh) as Hq.
  destruct (run width height evs p) as [p' rs]. simpl in *. by subst rs.
Qed.

(** X10.  No handler writes [maxIterations]: whatever the events, the budget is
    the 100 the script starts with. *)
Theorem session_budget (evs : list event) :
  maxIterations (view (session width height evs).1) = 100.
Proof. apply (steady_budget _ _ _ (session_steady evs)). Qed.

(** X12.  The canvas is never stale: after the script has loaded and after
    every event, the canvas holds the render of the zoom and offsets that
    the variables hold at that moment, so that one more call of
    [generateMandelbrot] would change nothing. *)
Theorem session_canvas_current (evs : list event) :
  (0 < width)%nat -> (0 < height)%nat ->
  let g := view (session width height evs).1 in
  canvasPixels g = renderRows width height g (replicate (width * height * 4) 0) /\
  generateMandelbrot width height g = Normal g.
Proof.
  intros Hw Hh g. pose proof (steady_shown _ _ _ (session_steady evs) Hw Hh) as Hs.
  fold g in Hs. split; [done|].
  rewrite generateMandelbrot_runs by done. unfold shown in Hs. rewrite <- Hs.
  by destruct g.
Qed.

(** X14.  While a drag is on, [startX] and [startY] hold numbers: the
    [mousemove] handler never computes with [undefined]. *)
Theorem session_drag_start (evs : list event) :
  let p := (session width height evs).1 in
  isDragging p = true ->
  exists x y, startX p = Some x /\ startY p = Some y.
Proof.
  intros p Hd. destruct (steady_start _ _ _ (session_steady evs) Hd) as [[x Hx] [y Hy]].
  by exists x, y.
Qed.

Lemma run_app (evs evs' : list event) (p : page) :
  run width height (evs ++ evs') p
  = let '(p', rs) := run width height evs p in
    let '(p'', rs') := run width height evs' p' in
    (p'', rs ++ rs').
Proof.
  revert p. induction evs as [|ev evs IH]; intros p; simpl.
  - by destruct (run width height evs' p).
  - destruct (on ev p) as [p1 r]. rewrite IH.
    destruct (run width height evs p1) as [p2 rs].
    destruct (run width height evs' p2) as [p3 rs'].
    by rewrite app_assoc.
Qed.

Lemma session_app (evs evs' : list event) :
  session width height (evs ++ evs')
  = let '(p, rs) := session width height evs in
    let '(p', rs') := run width height evs' p in
    (p', rs ++ rs').
Proof.
  unfold session. destruct (load width height) as [p0 r]. rewrite run_app.
  destruct (run width height evs p0) as [p rs].
  destruct (run width height evs' p) as [p' rs'].
  by rewrite app_assoc.
Qed.

Lemma run_released (evs : list event) (p : page) :
  isDragging p = false ->
  Forall (fun ev => ev = MouseUp \/ ev = MouseLeave \/ exists x y, ev = MouseMove x y) evs ->
  run width height evs p = (p, []).
Proof.
  intros Hd Hall. revert p Hd.
  induction Hall as [|ev evs Hev Hall IH]; intros p Hd; simpl; [done|].
  destruct p as [g d sx sy]. simpl in Hd. subst d.
  destruct Hev as [-> | [-> | (x & y & ->)]]; simpl; by rewrite IH.
Qed.

(** X16.  Once the button is released or the pointer has left the canvas,
    moving the pointer does nothing: until the next press or wheel event
    the viewport, the canvas and the drag state stay as they were, and no
    exception is raised. *)
Theorem release_ends_drag (evs evs' : list event) (stop : event) :
  stop = MouseUp \/ stop = MouseLeave ->
  Forall (fun ev => ev = MouseUp \/ ev = MouseLeave \/ exists x y, ev = MouseMove x y) evs' ->
  let '(p, rs) := session width height evs in
  session width height (evs ++ stop :: evs')
  = (Page (view p) false (startX p) (startY p), rs).
Proof.
  intros Hstop Hall. rewrite session_app.
  destruct (session width height evs) as [p rs].
  assert (on stop p = (Page (view p) false (startX p) (startY p), None)) as Hon
    by (by destruct Hstop as [-> | ->]).
  simpl. rewrite Hon, run_released by done. simpl. by rewrite app_nil_r.
Qed.

(** Before the first press the pointer's moves are ignored as well. *)
Lemma moves_before_press (evs : list event) :
  Forall (fun ev => ev = MouseUp \/ ev = MouseLeave \/ exists x y, ev = MouseMove x y) evs ->
  session width height evs = session width height [].
Proof.
  intros Hall. unfold session. destruct (load width height) as [p r] eqn:Hl.
  assert (isDragging p = false) as Hd.
  { unfold load in Hl. destruct (draw (initial width height)).
    by injection Hl as <- _. }
  by rewrite run_released.
Qed.

Lemma run_pressed (evs : list event) (p : page) :
  isDragging p = true ->
  Forall (fun ev => ev <> MouseUp /\ ev <> MouseLeave) evs ->
  isDragging (run width height evs p).1 = true.
Proof.
  intros Hd Hall. revert p Hd.
  induction Hall as [|ev evs [Hup Hleave] Hall IH]; intros p Hd; simpl; [done|].
  assert (isDragging (on ev p).1 = true) as Hd'.
  { destruct ev as [rect e|x y|x y| |]; simpl; try done.
    - unfold wheelHandler. by destruct (draw _).
    - unfold mousemoveHandler. rewrite Hd. by destruct (draw _). }
  destruct (on ev p) as [p' r]. specialize (IH p' Hd').
  by destruct (run width height evs p').
Qed.

(** X15.  A drag lasts from a press to the next release or leave: wheel events
    and moves in between do not end it. *)
Theorem press_starts_drag (evs evs' : list event) (x y : f64) :
  Forall (fun ev => ev <> MouseUp /\ ev <> MouseLeave) evs' ->
  isDragging (session width height (evs ++ MouseDown x y :: evs')).1 = true.
Proof.
  intros Hall. rewrite session_app.
  destruct (session width height evs) as [p rs].
  pose proof (run_pressed evs' (mousedownHandler x y p) eq_refl Hall) as Hr.
  simpl. destruct (run width height evs' _) as [p' rs']. by simpl in *.
Qed.

Lemma run_empty (evs : list event) (p : page) :
  (width = 0 \/ height = 0)%nat ->
  canvasPixels (view p) = [] ->
  canvasPixels (view (run width height evs p).1) = [].
Proof.
  intros Hz. revert p. induction evs as [|ev evs IH]; intros p Hp; simpl; [done|].
  assert (canvasPixels (view (on ev p).1) = []) as Hp'.
  { destruct ev as [rect e|x y|x y| |]; simpl; try done.
    - unfold wheelHandler. by rewrite redraw_fails.
    - unfold mousemoveHandler. destruct (isDragging p); [|done].
      by rewrite redraw_fails. }
  destruct (on ev p) as [p' r]. specialize (IH p' Hp').
  by destruct (run width height evs p').
Qed.

(** X9.  On a canvas of zero width or height the script's first render throws
    [IndexSizeError], and so does every wheel event afterwards, although
    the handler has by then changed the zoom; the canvas never gets a
    byte. *)
Theorem session_empty_canvas (evs : list event) (rect : domRect) (e : wheelEvent) :
  (width = 0 \/ height = 0)%nat ->
  let '(p, rs) := session width height evs in
  canvasPixels (view p) = [] /\
  (exists rs', rs = IndexSizeError :: rs') /\
  exists p',
    session width height (evs ++ [Wheel rect e]) = (p', rs ++ [IndexSizeError]) /\
    zoom (view p')
    = (if n_lt (deltaY e) (lit 0) then zoomIn (zoom (view p)) else zoomOut (zoom (view p))).
Proof.
  intros Hz. rewrite session_app.
  assert (canvasPixels (view (session width height evs).1) = [] /\
          exists rs', (session width height evs).2 = IndexSizeError :: rs') as Hs.
  { unfold session, load. rewrite redraw_fails by done.
    pose proof (run_empty evs (Page (initial width height) false None None) Hz) as Hr.
    destruct (run width height evs _) as [p rs]. simpl in *. split; [|by eexists].
    apply Hr. unfold initial. simpl. destruct Hz as [-> | ->]; [done|].
    by rewrite Nat.mul_0_r. }
  destruct (session width height evs) as [p rs]. simpl in Hs.
  destruct Hs as [Hc Hrs]. split; [done|]. split; [done|].
  simpl. unfold wheelHandler. rewrite redraw_fails by done.
  eexists. split; [done|]. done.
Qed.

(** X11.  The zoom factor stays a positive number: after any session [0 < zoom]
    holds, so the zoom is never zero, negative or NaN, and the division by
    [zoom] in the pixel-to-plane mapping is never a division by zero.  (It
    can become [+Infinity], by overflow.) *)
Theorem session_zoom_positive (evs : list event) :
  n_lt (lit 0) (zoom (view (session width height evs).1)) = true.
Proof.
  apply positiveDouble_gt_0, (steady_zoom _ _ _ (session_steady evs)).
Qed.

Lemma run_zoom (evs : list event) (p : page) :
  zoom (view (run width height evs p).1)
  = foldl (fun z ev =>
             match ev with
             | Wheel _ e => if n_lt (deltaY e) (lit 0) then zoomIn z else zoomOut z
             | _ => z
             end) (zoom (view p)) evs.
Proof.
  revert p. induction evs as [|ev evs IH]; intros p; cbn [run foldl fst]; [done|].
  assert (zoom (view (on ev p).1)
          = match ev with
            | Wheel _ e => if n_lt (deltaY e) (lit 0) then zoomIn (zoom (view p))
                           else zoomOut (zoom (view p))
            | _ => zoom (view p)
            end) as Hz.
  { destruct ev as [rect e|x y|x y| |]; cbn [handle fst].
    - unfold wheelHandler.
      match goal with |- context [draw ?g] =>
        pose proof (redraw_view g) as (_ & Hzm & _); destruct (draw g) as [g' r] end.
      exact Hzm.
    - reflexivity.
    - unfold mousemoveHandler. destruct (isDragging p); [|reflexivity].
      match goal with |- context [draw ?g] =>
        pose proof (redraw_view g) as (_ & Hzm & _); destruct (draw g) as [g' r] end.
      exact Hzm.
    - reflexivity.
    - reflexivity. }
  destruct (on ev p) as [p' r]. specialize (IH p'). cbn [fst] in Hz.
  destruct (run width height evs p') as [p'' rs]. cbn [fst] in *.
  by rewrite IH, Hz.
Qed.

(** X22.  The zoom depends on the wheel events alone, and of each only on the
    sign of its [deltaY]: after any session the zoom is 1 taken through
    one step per wheel event, times 1.1 when [deltaY < 0] and divided by
    1.1 otherwise, in the order of the events.  Where the pointer was,
    and every press, move and release, play no part; nor does the canvas
    size. *)
Theorem session_zoom_by_wheel (evs : list event) :
  zoom (view (session width height evs).1)
  = foldl (fun z ev =>
             match ev with
             | Wheel _ e => if n_lt (deltaY e) (lit 0) then zoomIn z else zoomOut z
             | _ => z
             end) (lit 1) evs.
Proof.
  unfold session, load.
  pose proof (redraw_view (initial width height)) as (_ & Hz & _).
  destruct (draw (initial width height)) as [g r]. cbn [fst] in Hz.
  pose proof (run_zoom evs (Page g false None None)) as Hr.
  destruct (run width height evs _) as [p' rs]. cbn [fst view zoom initial] in *.
  by rewrite Hr, Hz.
Qed.

Lemma shown_pixel (g : globals (num:=f64)) (px py : nat) :
  synced g -> (px < width)%nat -> (py < height)%nat ->
  take 4 (drop (pixelIndex width py px) (canvasPixels g)) = pixelBytes width height g py px.
Proof.
  intros Hs Hx Hy. apply list_eq. intros c.
  destruct (decide (c < 4)%nat) as [Hc|Hc].
  - rewrite lookup_take_lt, lookup_drop by done. rewrite Hs.
    apply renderRows_at; try done. by rewrite length_replicate.
  - rewrite lookup_take_ge by lia. symmetry. apply lookup_ge_None_2.
    rewrite pixelBytes_length. lia.
Qed.


Lemma run_offset_nan (evs : list event) (p : page) :
  (offsetX (view p) = S754_nan -> offsetX (view (run width height evs p).1) = S754_nan) /\
  (offsetY (view p) = S754_nan -> offsetY (view (run width height evs p).1) = S754_nan).
Proof.
  revert p. induction evs as [|ev evs IH]; intros p; cbn [run fst]; [done|].
  assert ((offsetX (view p) = S754_nan -> offsetX (view (on ev p).1) = S754_nan) /\
          (offsetY (view p) = S754_nan -> offsetY (view (on ev p).1) = S754_nan)) as Hn.
  { destruct ev as [rect e|x y|x y| |]; cbn [handle fst].
    - unfold wheelHandler.
      match goal with |- context [draw ?g] =>
        pose proof (redraw_view g) as (_ & _ & Hx & Hy); destruct (draw g) as [g' r] end.
      cbn [fst view] in *. rewrite Hx, Hy. unfold zoomAt, planeX, planeY.
      cbn [offsetX offsetY]. split; intros ->.
      + by destruct (_ / zoom (view p))%num, (_ / _)%num.
      + by destruct (_ / zoom (view p))%num, (_ / _)%num.
    - done.
    - unfold mousemoveHandler. destruct (isDragging p); [|done].
      match goal with |- context [draw ?g] =>
        pose proof (redraw_view g) as (_ & _ & Hx & Hy); destruct (draw g) as [g' r] end.
      cbn [fst view] in *. rewrite Hx, Hy. unfold panBy. cbn [offsetX offsetY].
      split; intros ->; reflexivity.
    - done.
    - done. }
  destruct (on ev p) as [p' r]. specialize (IH p'). cbn [fst] in Hn.
  destruct (run width height evs p') as [p'' rs]. cbn [fst] in *.
  split; intros Hp; [apply IH, Hn, Hp|apply IH, Hn, Hp].
Qed.

Lemma nan_count (x0 y0 : f64) :
  x0 = S754_nan \/ y0 = S754_nan -> escapeTime x0 y0 100 = 1.
Proof.
  intros Hn. rewrite escapeTime_first by lia.
  replace (n_le (x0 * x0 + y0 * y0)%num (lit 4)) with false; [done|].
  destruct Hn as [-> | ->]; [done|].
  by destruct (x0 * x0)%num.
Qed.

Lemma nan_plane (g : globals (num:=f64)) (p : f64) :
  (offsetX g = S754_nan -> planeX width g p = S754_nan) /\
  (offsetY g = S754_nan -> planeY height g p = S754_nan).
Proof.
  unfold planeX, planeY. split; intros ->; by destruct (_ / zoom g)%num.
Qed.

(** X24.  A NaN offset is final, and it blanks the picture: once [offsetX] or
    [offsetY] is NaN it stays NaN whatever events follow, every pixel's
    point fails the loop's test after the first step, so every count is
    1, and every pixel of the canvas is the colour of the count 1,
    (255, 15, 0) with alpha 255. *)
Theorem nan_offset_final (evs evs' : list event) (px py : nat) :
  (px < width)%nat -> (py < height)%nat ->
  offsetX (view (session width height evs).1) = S754_nan \/
  offsetY (view (session width height evs).1) = S754_nan ->
  let g := view (session width height (evs ++ evs')).1 in
  (offsetX g = S754_nan \/ offsetY g = S754_nan) /\
  escapeTime (planeX width g (lit (Z.of_nat px))) (planeY height g (lit (Z.of_nat py))) 100 = 1 /\
  take 4 (drop (pixelIndex width py px) (canvasPixels g)) = [255; 15; 0; 255].
Proof.
  intros Hx Hy Hn g.
  pose proof (session_steady (evs ++ evs')) as [Hb _ _ Hs]. fold g in Hb, Hs.
  specialize (Hs ltac:(lia) ltac:(lia)).
  assert (offsetX g = S754_nan \/ offsetY g = S754_nan) as Hg.
  { subst g. rewrite session_app.
    destruct (session width height evs) as [p rs]. cbn [fst] in Hn.
    pose proof (run_offset_nan evs' p) as [HX HY].
    destruct (run width height evs' p) as [p' rs']. cbn [fst] in *.
    destruct Hn as [Hn|Hn]; [left; by apply HX|right; by apply HY]. }
  assert (escapeTime (planeX width g (lit (Z.of_nat px)))
            (planeY height g (lit (Z.of_nat py))) 100 = 1) as Hcount.
  { apply nan_count. destruct Hg as [Hg|Hg]; [left|right]; by apply nan_plane. }
  split; [done|]. split; [done|].
  rewrite shown_pixel by done. unfold pixelBytes. cbv zeta.
  rewrite Hb, Hcount. by vm_compute.
Qed.

(** X13.  In any session, the four bytes that the canvas holds for a pixel are
    the colour of that pixel's escape count under the current viewport,
    and they tell the count: each count lies between 1 and 100, two pixels
    have the same colour exactly when they have the same count, and a
    pixel is red, (255, 0, 0), exactly when its count is 100, that is,
    when its point did not escape within the budget. *)
Theorem session_colour_tells_count (evs : list event) (px py px' py' : nat) :
  (px < width)%nat -> (py < height)%nat ->
  (px' < width)%nat -> (py' < height)%nat ->
  let g := view (session width height evs).1 in
  let count (x y : nat) :=
    escapeTime (planeX width g (lit (Z.of_nat x))) (planeY height g (lit (Z.of_nat y))) 100 in
  let colour (x y : nat) := take 4 (drop (pixelIndex width y x) (canvasPixels g)) in
  1 <= count px py <= 100 /\
  colour px py = colorBytes (pixelColor (num:=f64) (count px py) 100) /\
  (colour px py = colour px' py' <-> count px py = count px' py') /\
  (colour px py = [255; 0; 0; 255] <-> count px py = 100).
Proof.
  intros Hx Hy Hx' Hy' g count colour.
  pose proof (session_steady evs) as [Hb _ _ Hs]. fold g in Hb, Hs.
  specialize (Hs ltac:(lia) ltac:(lia)).
  assert (forall x y, (x < width)%nat -> (y < height)%nat ->
            colour x y = colorBytes (pixelColor (num:=f64) (count x y) 100)) as Hcol.
  { intros x y Hx0 Hy0. unfold colour. rewrite shown_pixel by done.
    unfold pixelBytes, count. cbv zeta. rewrite Hb. reflexivity. }
  assert (forall x y, 1 <= count x y <= 100) as Hcount
    by (intros x y; apply escape_count_positive; lia).
  split; [done|]. split; [by apply Hcol|].
  rewrite !Hcol by done.
  split; [split; [apply palette_injective; done|by intros ->]|].
  change [255; 0; 0; 255] with (colorBytes (pixelColor (num:=f64) 100 100)).
  split; [apply palette_injective; first [done|lia]|by intros ->].
Qed.

End Sessions.

(** ** Panning and zooming in exact arithmetic *)

Section ExactMore.

Variables width height : nat.






End ExactMore.

(** * Instances *)

Lemma pixel_plane_coordinate_witness :
  (2 < 4)%nat /\ (1 < 3)%nat /\ (0 < 4)%nat /\
  exists g', generateMandelbrot (num:=f64) 4 3 (initial 4 3) = Normal g' /\
             canvasPixels g' !! 24%nat = Some 255.
Proof.
  split; [lia|]. split; [lia|]. split; [lia|].
  destruct (pixel_plane_coordinate (num:=f64) 4 3 (initial 4 3) 2 1 0
              ltac:(lia) ltac:(lia) ltac:(lia)) as (_ & _ & g' & Hrun & Hpix).
  exists g'. split; [exact Hrun|].
  change (canvasPixels g' !! (pixelIndex 4 1 2 + 0)%nat = Some 255).
  rewrite Hpix. vm_compute. reflexivity.
Defined.

Lemma pixel_iteration_reference_witness :
  (2 < 4)%nat /\ (1 < 3)%nat /\ (1 < 4)%nat /\
  exists n g', referenceRun (num:=f64)
                 (planeX 4 (initial 4 3) (lit 2)) (planeY 3 (initial 4 3) (lit 1))
                 100 (lit 0) (lit 0) 0 n /\
               generateMandelbrot (num:=f64) 4 3 (initial 4 3) = Normal g' /\
               canvasPixels g' !! 25%nat = colorBytes (pixelColor (num:=f64) n 100) !! 1%nat.
Proof.
  split; [lia|]. split; [lia|]. split; [lia|].
  destruct (pixel_iteration_reference (num:=f64) 4 3 (initial 4 3) 2 1 1
              ltac:(lia) ltac:(lia) ltac:(lia)) as (n & Href & _ & g' & Hrun & Hpix).
  exists n, g'. split; [exact Href|]. split; [exact Hrun|exact Hpix].
Defined.


Lemma render_deterministic_witness :
  generateMandelbrot (num:=f64) 2 2 (Globals 7 (lit 1) (lit 0) (lit 0) [])
  = generateMandelbrot 2 2 (Globals 7 (lit 1) (lit 0) (lit 0) [1; 2; 3]).
Proof.
  exact (proj1 (render_deterministic (num:=f64) 2 2
                  (Globals 7 (lit 1) (lit 0) (lit 0) [])
                  (Globals 7 (lit 1) (lit 0) (lit 0) [1; 2; 3])
                  eq_refl eq_refl eq_refl eq_refl)).
Defined.

Lemma nonpositive_budget_renders_witness :
  (0 < 1)%nat /\ (0 < 1)%nat /\ -3 <= 0 /\
  exists g', generateMandelbrot (num:=f64) 1 1 (Globals (-3) (lit 1) (lit 0) (lit 0) [])
             = Normal g' /\ canvasPixels g' !! 0%nat = Some 255.
Proof.
  split; [lia|]. split; [lia|]. split; [lia|].
  destruct (proj2 (nonpositive_budget_renders 1 1
                     (Globals (-3) (lit 1) (lit 0) (lit 0) []))
              ltac:(lia) ltac:(lia) ltac:(simpl; lia)) as (g' & Hrun & _ & Hpix).
  exists g'. split; [exact Hrun|].
  exact (proj1 (proj2 (Hpix 0%nat 0%nat ltac:(lia) ltac:(lia)))).
Defined.

Lemma zoom_keeps_pointer_witness :
  valid_binary Float64.prec Float64.emax (lit (-5) / lit 10 : f64)%num = true /\
  valid_binary Float64.prec Float64.emax (lit 0 : f64) = true /\
  exists q0 : Q,
    Float64.to_Q (planeX (num:=f64) 800
                    (Globals 100 (lit 1) (lit (-5) / lit 10)%num (lit 0) []) (lit 303))
    = Some q0 /\
    (Qabs (inject_Z (-8872091265919878) * 2 ^ (-53) - q0)
     <= (1 # 2 ^ 52) * (Qabs (inject_Z (-8872091265919878) * 2 ^ (-53))
                        + Qabs (inject_Z (-4900735230874986) * 2 ^ (-53))))%Q.
Proof.
  split; [reflexivity|]. split; [reflexivity|].
  exact (proj1 (proj2 (zoom_keeps_pointer 800 600
                  (Globals 100 1%Q (-1 # 2)%Q 0%Q []) 303%Q 303%Q (-1)%Q
                  (Globals 100 (lit 1) (lit (-5) / lit 10)%num (lit 0) [])
                  (lit 303) (lit 303) (lit (-1)) eq_refl eq_refl))
           _ _ ltac:(vm_compute; reflexivity) ltac:(vm_compute; reflexivity)).
Defined.

Lemma zoom_round_trip_witness :
  Float64.midRange (lit 1) = true /\
  Float64.relClose (1 # 10 ^ 9) (zoomOut (zoomIn (num:=f64) (lit 1))) (lit 1).
Proof.
  split; [reflexivity|].
  exact (proj1 (zoom_round_trip (lit 1) eq_refl)).
Defined.

Lemma pixel_color_written_witness :
  (2 < 4)%nat /\ (1 < 3)%nat /\
  exists g', generateMandelbrot (num:=f64) 4 3 (initial 4 3) = Normal g' /\
             canvasPixels g' !! 27%nat = Some 255.
Proof.
  split; [lia|]. split; [lia|].
  destruct (pixel_color_written 4 3 (initial 4 3) 2 1 ltac:(lia) ltac:(lia))
    as (g' & r & gr & b & Hrun & _ & _ & _ & _ & _ & Ha).
  exists g'. split; [exact Hrun|exact Ha].
Defined.


Lemma render_covers_canvas_witness :
  (5 < 2 * 2 * 4)%nat /\
  exists g', generateMandelbrot (num:=f64) 2 2 (initial 2 2) = Normal g' /\
             length (canvasPixels g') = 16%nat.
Proof.
  split; [lia|].
  destruct (render_covers_canvas (num:=f64) 2 2 (initial 2 2) 5 ltac:(lia))
    as (g' & Hrun & Hlen & _).
  exists g'. split; [exact Hrun|exact Hlen].
Defined.

Lemma canvas_bytes_opaque_witness :
  let g' := putImageData (renderRows 1 1 (initial (num:=f64) 1 1) (replicate 4 0))
              (initial 1 1) in
  generateMandelbrot (num:=f64) 1 1 (initial 1 1) = Normal g' /\
  canvasPixels g' !! 3%nat = Some 255 /\
  0 <= 255 <= 255.
Proof.
  intros g'.
  assert (generateMandelbrot (num:=f64) 1 1 (initial 1 1) = Normal g') as Hrun
    by reflexivity.
  assert (canvasPixels g' !! 3%nat = Some 255) as Hv by (vm_compute; reflexivity).
  split; [exact Hrun|]. split; [exact Hv|].
  exact (proj1 (canvas_bytes_opaque 1 1 (initial 1 1) g' 3 255 Hrun Hv)).
Defined.

Lemma escape_budget_truncates_witness :
  0 <= 5 <= 100 /\
  escapeTime (num:=f64) (lit 0) (lit 0) 5
  = Z.min 5 (escapeTime (num:=f64) (lit 0) (lit 0) 100).
Proof.
  split; [lia|].
  exact (escape_budget_truncates (num:=f64) (lit 0) (lit 0) 5 100 ltac:(lia)).
Defined.

Lemma escape_first_step_witness :
  1 <= 100 /\ 1 <= escapeTime (num:=f64) (lit 3) (lit 3) 100 <= 100.
Proof.
  split; [lia|].
  exact (proj1 (escape_first_step (lit 3) (lit 3) 100 ltac:(lia))).
Defined.

Lemma palette_tells_count_witness :
  1 <= 7 <= 100 /\ 1 <= 100 <= 100 /\
  (colorBytes (pixelColor (num:=f64) 7 100) = colorBytes (pixelColor (num:=f64) 100 100)
   <-> 7 = 100).
Proof.
  split; [lia|]. split; [lia|].
  exact (proj1 (palette_tells_count 7 100 ltac:(lia) ltac:(lia))).
Defined.


Lemma session_raises_nothing_witness :
  (0 < 2)%nat /\ (0 < 1)%nat /\
  (session 2 1 [MouseDown (lit 0) (lit 0); MouseMove (lit 1) (lit 0); MouseUp]).2 = [].
Proof.
  split; [lia|]. split; [lia|].
  exact (session_raises_nothing 2 1 _ ltac:(lia) ltac:(lia)).
Defined.

Lemma session_empty_canvas_witness :
  (0 = 0 \/ 5 = 0)%nat /\
  canvasPixels (view (session 0 5 [MouseDown (lit 0) (lit 0)]).1) = [].
Proof.
  split; [by left|].
  pose proof (session_empty_canvas 0 5 [MouseDown (lit 0) (lit 0)]
                (DomRect (lit 0) (lit 0)) (WheelEvent (lit 1) (lit 1) (lit 1))
                ltac:(by left)) as Hs.
  destruct (session 0 5 [MouseDown (lit 0) (lit 0)]) as [p rs].
  exact (proj1 Hs).
Defined.

Lemma session_canvas_current_witness :
  (0 < 1)%nat /\ (0 < 2)%nat /\
  let g := view (session 1 2 [Wheel (DomRect (lit 0) (lit 0))
                                   (WheelEvent (lit 0) (lit 1) (lit (-1)))]).1 in
  generateMandelbrot 1 2 g = Normal g.
Proof.
  split; [lia|]. split; [lia|].
  exact (proj2 (session_canvas_current 1 2 _ ltac:(lia) ltac:(lia))).
Defined.

Lemma session_colour_tells_count_witness :
  (0 < 2)%nat /\ (0 < 1)%nat /\ (1 < 2)%nat /\ (0 < 1)%nat /\
  let g := view (session 2 1 []).1 in
  1 <= escapeTime (planeX 2 g (lit 0)) (planeY 1 g (lit 0)) 100 <= 100.
Proof.
  split; [lia|]. split; [lia|]. split; [lia|]. split; [lia|].
  exact (proj1 (session_colour_tells_count 2 1 [] 0 0 1 0
                  ltac:(lia) ltac:(lia) ltac:(lia) ltac:(lia))).
Defined.

Lemma session_drag_start_witness :
  isDragging (session 1 1 [MouseDown (lit 3) (lit 4)]).1 = true /\
  exists x y,
    startX (session 1 1 [MouseDown (lit 3) (lit 4)]).1 = Some x /\
    startY (session 1 1 [MouseDown (lit 3) (lit 4)]).1 = Some y.
Proof.
  assert (isDragging (session 1 1 [MouseDown (lit 3) (lit 4)]).1 = true) as Hd
    by (vm_compute; reflexivity).
  split; [exact Hd|].
  exact (session_drag_start 1 1 [MouseDown (lit 3) (lit 4)] Hd).
Defined.

Lemma press_starts_drag_witness :
  Forall (fun ev => ev <> MouseUp /\ ev <> MouseLeave) [MouseMove (lit 1) (lit 2)] /\
  isDragging (session 1 1 ([MouseUp] ++ MouseDown (lit 0) (lit 0)
                                      :: [MouseMove (lit 1) (lit 2)])).1 = true.
Proof.
  assert (Forall (fun ev => ev <> MouseUp /\ ev <> MouseLeave)
            [MouseMove (lit 1) (lit 2)]) as Hall
    by (constructor; [split; discriminate|constructor]).
  split; [exact Hall|].
  exact (press_starts_drag 1 1 [MouseUp] [MouseMove (lit 1) (lit 2)] (lit 0) (lit 0) Hall).
Defined.

Lemma release_ends_drag_witness :
  (MouseLeave = MouseUp \/ MouseLeave = MouseLeave) /\
  Forall (fun ev => ev = MouseUp \/ ev = MouseLeave \/ exists x y, ev = MouseMove x y)
    [MouseMove (lit 1) (lit 2)] /\
  let '(p, rs) := session 1 1 [MouseDown (lit 0) (lit 0)] in
  session 1 1 ([MouseDown (lit 0) (lit 0)] ++ MouseLeave :: [MouseMove (lit 1) (lit 2)])
  = (Page (view p) false (startX p) (startY p), rs).
Proof.
  assert (Forall (fun ev => ev = MouseUp \/ ev = MouseLeave \/ exists x y, ev = MouseMove x y)
            [MouseMove (lit 1) (lit 2)]) as Hall
    by (constructor; [right; right; by eexists _, _|constructor]).
  split; [by right|]. split; [exact Hall|].
  exact (release_ends_drag 1 1 [MouseDown (lit 0) (lit 0)] [MouseMove (lit 1) (lit 2)]
           MouseLeave ltac:(by right) Hall).
Defined.

Lemma zoom_step_direction_witness :
  Float64.midRange (lit 1) = true /\
  n_lt (lit 1) (zoomIn (num:=f64) (lit 1)) = true.
Proof.
  split; [reflexivity|].
  exact (proj1 (zoom_step_direction (lit 1) eq_refl)).
Defined.




Lemma nan_offset_final_witness :
  let evs := [Wheel (DomRect (lit 0) (lit 0)) (WheelEvent S754_nan (lit 0) (lit 1))] in
  (0 < 1)%nat /\ (0 < 1)%nat /\
  offsetX (view (session 1 1 evs).1) = S754_nan /\
  take 4 (drop (pixelIndex 1 0 0) (canvasPixels (view (session 1 1 (evs ++ [MouseUp])).1)))
  = [255; 15; 0; 255].
Proof.
  intros evs.
  assert (offsetX (view (session 1 1 evs).1) = S754_nan) as Hn
    by (vm_compute; reflexivity).
  split; [lia|]. split; [lia|]. split; [exact Hn|].
  exact (proj2 (proj2 (nan_offset_final 1 1 evs [MouseUp] 0 0
                         ltac:(lia) ltac:(lia) (or_introl Hn)))).
Defined.
